(** * The [one-var] declaration-grouping rule

    A shallow embedding of the rule that decides, for every
    [VariableDeclaration] statement, whether it has to be combined with
    an earlier statement, split, or left alone, and of the fixers it
    attaches to its diagnostics.  Definitions follow the JavaScript
    source function by function and keep its names; the rule is the
    second module of [src/eslint/lib/rules/no-undefined.js], and line
    numbers are those of that file. *)

From Stdlib Require Import Bool Arith Lia.
From stdpp Require Import base option list strings gmap.

Local Open Scope string_scope.
Local Open Scope list_scope.

(** ** Configuration *)

Inductive Mode := MODE_ALWAYS | MODE_NEVER | MODE_CONSECUTIVE.

#[global] Instance Mode_eq_dec : EqDecision Mode.
Proof. solve_decision. Defined.

(** [option Mode] is a mode slot of the options object: [None] is
    [undefined] (an object configuration that leaves the slot out). *)
Definition is_mode (slot : option Mode) (m : Mode) : bool :=
  bool_decide (slot = Some m).

(** [node.kind].  The rule configures the first three; the remaining
    kinds of the grammar have no entry in [options]. *)
Inductive Kind := Kvar | Klet | Kconst | Kusing | Kawait_using.

#[global] Instance Kind_eq_dec : EqDecision Kind.
Proof. solve_decision. Defined.

Definition kind_text (k : Kind) : string :=
  match k with
  | Kvar => "var"
  | Klet => "let"
  | Kconst => "const"
  | Kusing => "using"
  | Kawait_using => "await using"
  end.

(** [options[statementType]]: [{ uninitialized, initialized }]. *)
Record KindOptions := mkKindOptions {
  opt_uninitialized : option Mode;
  opt_initialized : option Mode
}.

Record Options := mkOptions {
  separateRequires : bool;
  options_var : KindOptions;
  options_let : KindOptions;
  options_const : KindOptions
}.

(** [context.options[0]]: absent, a mode string, or an object.  A field
    of the object is [None] when the object does not own it. *)
Record ModeObject := mkModeObject {
  mo_separateRequires : bool;
  mo_var : option Mode;
  mo_let : option Mode;
  mo_const : option Mode;
  mo_uninitialized : option Mode;
  mo_initialized : option Mode
}.

Inductive RuleConfig :=
| ConfigAbsent
| ConfigString (mode : Mode)
| ConfigObject (mode : ModeObject).

(** Lines 187-210: [const mode = context.options[0] || MODE_ALWAYS] and
    the derivation of [options]. *)
Definition deriveOptions (cfg : RuleConfig) : Options :=
  let uniform mode :=
    {| opt_uninitialized := Some mode; opt_initialized := Some mode |} in
  match cfg with
  | ConfigAbsent =>
      mkOptions false (uniform MODE_ALWAYS) (uniform MODE_ALWAYS) (uniform MODE_ALWAYS)
  | ConfigString mode =>
      mkOptions false (uniform mode) (uniform mode) (uniform mode)
  | ConfigObject mode =>
      let slot (perKind : option Mode) :=
        {| opt_uninitialized :=
             match mo_uninitialized mode with
             | Some m => Some m
             | None => perKind
             end;
           opt_initialized :=
             match mo_initialized mode with
             | Some m => Some m
             | None => perKind
             end |} in
      mkOptions (mo_separateRequires mode)
                (slot (mo_var mode)) (slot (mo_let mode)) (slot (mo_const mode))
  end.

(** [options[type]]: defined for ["var"], ["let"] and ["const"] only. *)
Definition options_get (o : Options) (type : Kind) : option KindOptions :=
  match type with
  | Kvar => Some (options_var o)
  | Klet => Some (options_let o)
  | Kconst => Some (options_const o)
  | _ => None
  end.

(** ** Syntax tree *)

(** The initializer of a declarator, as far as [isRequire] looks at it:
    a call expression with the name of its callee ([None] when the
    callee is not an identifier), or any other expression. *)
Inductive Expression :=
| CallExpression (callee_name : option string)
| OtherExpression.

Record Declarator := mkDeclarator {
  d_range : nat * nat;
  init : option Expression        (* [None] is [init === null] *)
}.

Record VariableDeclaration := mkVariableDeclaration {
  nid : nat;                      (* object identity of the node *)
  kind : Kind;
  declarations : list Declarator;
  range : nat * nat
}.

(** A statement of a [body] array. *)
Inductive Statement :=
| VariableDeclarationStatement (v : VariableDeclaration)
| OtherStatement (id : nat) (type : string) (start : nat).

Definition statement_id (s : Statement) : nat :=
  match s with
  | VariableDeclarationStatement v => nid v
  | OtherStatement id _ _ => id
  end.

Definition statement_start (s : Statement) : nat :=
  match s with
  | VariableDeclarationStatement v => fst (range v)
  | OtherStatement _ _ start => start
  end.

(** [node.parent].  [p_body] is [Some] when [parent.body] is an array;
    [p_init] and [p_left] hold the identity of [parent.init] and
    [parent.left]; [p_parent_type] is [parent.parent.type], read only
    when the parent is an [ExportNamedDeclaration]. *)
Record Parent := mkParent {
  p_type : string;
  p_body : option (list Statement);
  p_init : option nat;
  p_left : option nat;
  p_parent_type : string
}.

Record Node := mkNode {
  decl : VariableDeclaration;
  parent : Parent
}.

(** ** Analyzer state and its monad *)

(** A scope record.  A fresh record has no [required] property, which
    reads as [undefined], that is false. *)
Record ScopeRecord := mkScope {
  initialized : bool;
  uninitialized : bool;
  required : bool
}.

Definition fresh_scope : ScopeRecord := mkScope false false false.

Record BlockRecord := mkBlock {
  block_let : ScopeRecord;
  block_const : ScopeRecord
}.

(** The two stacks are JavaScript arrays: [push] appends at the end and
    [at(-1)] reads the last element. *)
Record Analyzer := mkAnalyzer {
  functionStack : list ScopeRecord;
  blockStack : list BlockRecord
}.

#[global] Instance ScopeRecord_eq_dec : EqDecision ScopeRecord.
Proof. solve_decision. Defined.
#[global] Instance BlockRecord_eq_dec : EqDecision BlockRecord.
Proof. solve_decision. Defined.
#[global] Instance Analyzer_eq_dec : EqDecision Analyzer.
Proof. solve_decision. Defined.

(** Computations over the analyzer state; [None] is a thrown
    [TypeError] (a property read on [undefined] or [null]). *)
Definition M (A : Type) : Type := Analyzer -> option (A * Analyzer).

Definition ret {A} (x : A) : M A := fun st => Some (x, st).
Definition throw {A} : M A := fun _ => None.
Definition bind {A B} (m : M A) (k : A -> M B) : M B :=
  fun st => match m st with
            | Some (x, st') => k x st'
            | None => None
            end.
Definition get_state : M Analyzer := fun st => Some (st, st).
Definition put_state (st : Analyzer) : M unit := fun _ => Some (tt, st).
(** Dereference of a possibly [undefined]/[null] value. *)
Definition deref {A} (o : option A) : M A :=
  match o with
  | Some x => ret x
  | None => throw
  end.

Declare Scope analyzer_scope.
Delimit Scope analyzer_scope with analyzer.
Notation "x <- m ;;; k" := (bind m (fun x => k))
  (at level 100, m at next level, right associativity) : analyzer_scope.
Notation "m ;;; k" := (bind m (fun _ => k))
  (at level 100, right associativity) : analyzer_scope.
Local Open Scope analyzer_scope.

(** [array.pop()], which leaves an empty array empty. *)
Definition pop {A} (l : list A) : list A := removelast l.

(** Write through the reference [array.at(-1)]. *)
Definition alter_last {A} (f : A -> A) (l : list A) : list A :=
  alter f (length l - 1) l.

(** Lines 226-260. *)
Definition startBlock : M unit :=
  st <- get_state ;;;
  put_state {| functionStack := functionStack st;
               blockStack := blockStack st ++ [mkBlock fresh_scope fresh_scope] |}.

Definition startFunction : M unit :=
  st <- get_state ;;;
  put_state {| functionStack := functionStack st ++ [fresh_scope];
               blockStack := blockStack st |} ;;;
  startBlock.

Definition endBlock : M unit :=
  st <- get_state ;;;
  put_state {| functionStack := functionStack st;
               blockStack := pop (blockStack st) |}.

Definition endFunction : M unit :=
  st <- get_state ;;;
  put_state {| functionStack := pop (functionStack st);
               blockStack := blockStack st |} ;;;
  endBlock.

(** ** Declaration classifier *)

(** Lines 268-270. *)
Definition isRequire (d : Declarator) : bool :=
  match init d with
  | Some (CallExpression (Some name)) => String.eqb name "require"
  | _ => false
  end.

Record Counts := mkCounts {
  count_uninitialized : nat;
  count_initialized : nat
}.

(** Lines 322-333. *)
Definition countDeclarations (ds : list Declarator) : Counts :=
  fold_left
    (fun counts d =>
       match init d with
       | None => mkCounts (S (count_uninitialized counts)) (count_initialized counts)
       | Some _ => mkCounts (count_uninitialized counts) (S (count_initialized counts))
       end)
    ds (mkCounts 0 0).

(** ** Source text, tokens and edits *)

Record Token := mkToken {
  t_type : string;
  t_value : string;
  t_range : nat * nat;
  t_start_line : nat;             (* [loc.start.line] *)
  t_end_line : nat                (* [loc.end.line] *)
}.

(** [sourceCode]: the text and its tokens and comments in source order. *)
Record SourceCode := mkSourceCode {
  text : string;
  tokensAndComments : list Token
}.

Definition isCommentToken (t : Token) : bool :=
  String.eqb (t_type t) "Line" || String.eqb (t_type t) "Block".

(** Modelled from the spec: the host's source-text accessor is not part
    of the rule.  [getTokenAfter] is the first token that starts at or
    after the end of the given node or token, comments counted only with
    [includeComments]; [getTokenBefore] is the last non-comment token
    that ends at or before its start. *)
Definition getTokenAfter (sc : SourceCode) (end_ : nat) (includeComments : bool)
    : option Token :=
  find (fun t => (end_ <=? fst (t_range t))%nat
                 && (includeComments || negb (isCommentToken t)))
       (tokensAndComments sc).

Definition getTokenBefore (sc : SourceCode) (start : nat) : option Token :=
  last (filter (fun t => (snd (t_range t) <=? start)%nat = true
                         /\ isCommentToken t = false)
               (tokensAndComments sc)).

(** [text.slice(from, to)], also [sourceCode.getText(token)]. *)
Definition slice (s : string) (from to : nat) : string :=
  String.substring from (to - from) s.

Definition getText (sc : SourceCode) (t : Token) : string :=
  slice (text sc) (fst (t_range t)) (snd (t_range t)).

(** A fix object [{ range, text }]. *)
Record Edit := mkEdit {
  e_range : nat * nat;
  e_text : string
}.

(** Modelled from the spec: the host's text-editing helper ([fixer]). *)
Definition replaceTextRange (r : nat * nat) (s : string) : Edit := mkEdit r s.
Definition replaceText (t : Token) (s : string) : Edit := replaceTextRange (t_range t) s.
Definition insertTextAfter (t : Token) (s : string) : Edit :=
  replaceTextRange (snd (t_range t), snd (t_range t)) s.

(** Modelled from the spec: the host applies the range replacements of
    a fix to the text.  The edits are taken in source order and do not
    overlap; the last one is applied first, so earlier ranges stay valid. *)
Definition applyEdit (e : Edit) (s : string) : string :=
  String.app (slice s 0 (fst (e_range e)))
    (String.app (e_text e) (slice s (snd (e_range e)) (String.length s))).

Definition applyEdits (es : list Edit) (s : string) : string :=
  fold_right applyEdit s es.

(** ** Diagnostics *)

Inductive MessageId :=
| combineUninitialized
| combineInitialized
| splitUninitialized
| splitInitialized
| splitRequires
| combine
| split.

#[global] Instance MessageId_eq_dec : EqDecision MessageId.
Proof. solve_decision. Defined.

(** A fixer closure: its code and the variables it captured. *)
Inductive Fix :=
| JoinFix (declaration : Declarator) (previousNode : option Statement)
| SplitFix (node : Node).

(** The argument of [context.report]; [report_fix] is its [fix]
    property, [None] when the property is left out or [null]. *)
Record Report := mkReport {
  report_node : Node;
  messageId : MessageId;
  data_type : option Kind;
  report_fix : option Fix
}.

(** [array[i]] for a possibly negative index. *)
Definition array_get {A} (l : list A) (i : Z) : option A :=
  if (i <? 0)%Z then None else l !! Z.to_nat i.

(** [array.findIndex(p)], [-1] when no element satisfies [p]. *)
Fixpoint findIndex {A} (p : A -> bool) (l : list A) : Z :=
  match l with
  | [] => (-1)%Z
  | x :: l' =>
      if p x then 0%Z
      else let i := findIndex p l' in
           if (i <? 0)%Z then (-1)%Z else (i + 1)%Z
  end.

Fixpoint mapM {A B} (f : A -> M B) (l : list A) : M (list B) :=
  match l with
  | [] => ret []
  | x :: l' =>
      y <- f x ;;;
      ys <- mapM f l' ;;;
      ret (y :: ys)
  end.

(** ** The rule instance

    [create(context)] closes over the derived [options] and over
    [context.sourceCode]; the set
    [astUtils.STATEMENT_LIST_PARENTS] comes from a module outside this
    development and is a parameter. *)
Section Create.

Variable options : Options.
Variable STATEMENT_LIST_PARENTS : gset string.
Variable sourceCode : SourceCode.

(** [options[type] && options[type].<slot> === mode]; also
    [(options[type] || {}).<slot> === mode]. *)
Definition mode_is (slot : KindOptions -> option Mode) (type : Kind) (m : Mode) : bool :=
  match options_get options type with
  | Some currentOptions => is_mode (slot currentOptions) m
  | None => false
  end.

(** Lines 280-296.  The loop body, then the loop; the record that the
    source mutates in place is passed through. *)
Definition recordType (statementType : Kind) (currentScope : ScopeRecord)
    (d : Declarator) : ScopeRecord :=
  match init d with
  | None =>
      if mode_is opt_uninitialized statementType MODE_ALWAYS
      then mkScope (initialized currentScope) true (required currentScope)
      else currentScope
  | Some _ =>
      if mode_is opt_initialized statementType MODE_ALWAYS
      then if separateRequires options && isRequire d
           then mkScope (initialized currentScope) (uninitialized currentScope) true
           else mkScope true (uninitialized currentScope) (required currentScope)
      else currentScope
  end.

Definition recordTypes (statementType : Kind) (ds : list Declarator)
    (currentScope : ScopeRecord) : ScopeRecord :=
  fold_left (recordType statementType) ds currentScope.

(** Lines 303-314.  [None] is the [undefined] result (["var"] on an
    empty function stack, a kind that is none of the three) and also
    the [TypeError] of [blockStack.at(-1).let] on an empty block stack:
    the only caller reads a property of the result on every path
    (line 369 at the latest), so both end in the same [TypeError]. *)
Definition getCurrentScope (statementType : Kind) (st : Analyzer) : option ScopeRecord :=
  match statementType with
  | Kvar => last (functionStack st)
  | Klet => block_let <$> last (blockStack st)
  | Kconst => block_const <$> last (blockStack st)
  | _ => None
  end.

(** The writes of [recordTypes] land in the record [getCurrentScope]
    returned, which is the top of one of the stacks. *)
Definition setCurrentScope (statementType : Kind) (sc : ScopeRecord)
    (st : Analyzer) : Analyzer :=
  match statementType with
  | Kvar =>
      {| functionStack := alter_last (fun _ => sc) (functionStack st);
         blockStack := blockStack st |}
  | Klet =>
      {| functionStack := functionStack st;
         blockStack := alter_last (fun b => mkBlock sc (block_const b)) (blockStack st) |}
  | Kconst =>
      {| functionStack := functionStack st;
         blockStack := alter_last (fun b => mkBlock (block_let b) sc) (blockStack st) |}
  | _ => st
  end.

(** Lines 342-374. *)
Definition hasOnlyOneStatement (statementType : Kind) (ds : list Declarator) : M bool :=
  st <- get_state ;;;
  let declarationCounts := countDeclarations ds in
  currentScope <- deref (getCurrentScope statementType st) ;;;
  let hasRequires := existsb isRequire ds in
  if mode_is opt_uninitialized statementType MODE_ALWAYS
     && mode_is opt_initialized statementType MODE_ALWAYS
     && (uninitialized currentScope || initialized currentScope)
     && negb hasRequires
  then ret false
  else if Nat.ltb 0 (count_uninitialized declarationCounts)
          && mode_is opt_uninitialized statementType MODE_ALWAYS
          && uninitialized currentScope
  then ret false
  else if Nat.ltb 0 (count_initialized declarationCounts)
          && mode_is opt_initialized statementType MODE_ALWAYS
          && initialized currentScope
          && negb hasRequires
  then ret false
  else if required currentScope && hasRequires
  then ret false
  else
    put_state (setCurrentScope statementType
                 (recordTypes statementType ds currentScope) st) ;;;
    ret true.


(** ** Fix synthesizer *)

(** Lines 110-112, on the value of [node.parent.type]. *)
Definition isInStatementList (parent_type : string) : bool :=
  bool_decide (parent_type ∈ STATEMENT_LIST_PARENTS).

(** Lines 381-386: the part of [joinDeclarations] that runs when the
    diagnostic is built.  [declarations[0].parent] is the statement, so
    [declaration.parent.parent.body] is [parent.body] of the node and an
    empty [declarations] array throws. *)
Definition joinDeclarations (node : Node) : M Fix :=
  declaration <- deref (head (declarations (decl node))) ;;;
  let body := default [] (p_body (parent node)) in
  let currentIndex :=
    findIndex (fun s => statement_start s =? fst (range (decl node)))%nat body in
  let previousNode := array_get body (currentIndex - 1) in
  ret (JoinFix declaration previousNode).

(** Lines 387-402: the closure [fixer => ...] of [joinDeclarations]. *)
Definition runJoinFix (declaration : Declarator) (previousNode : option Statement)
    : M (list Edit) :=
  type <- deref (getTokenBefore sourceCode (fst (d_range declaration))) ;;;
  let prevSemi := getTokenBefore sourceCode (fst (t_range type)) in
  match previousNode with
  | Some (VariableDeclarationStatement previous) =>
      if String.eqb (kind_text (kind previous)) (getText sourceCode type)
      then
        prevSemi <- deref prevSemi ;;;
        ret ((if String.eqb (t_value prevSemi) ";"
              then replaceText prevSemi ","
              else insertTextAfter prevSemi ",")
             :: [replaceText type ""])
      else ret []
  | _ => ret []
  end.

(** Lines 410-416. *)
Definition splitDeclarations (node : Node) : option Fix :=
  let parent := parent node in
  if negb (isInStatementList
             (if String.eqb (p_type parent) "ExportNamedDeclaration"
              then p_parent_type parent
              else p_type parent))
  then None
  else Some (SplitFix node).

(** Lines 454-456: the [while] loop over contiguous comments.  Each turn
    moves to a later token, so the number of tokens bounds the turns;
    the bound is the fuel, which tokens that cover at least one
    character each never use up. *)
Fixpoint skipComments (fuel : nat) (lastComment : Token) : M Token :=
  if isCommentToken lastComment
  then match fuel with
       | O => throw
       | S fuel' =>
           next <- deref (getTokenAfter sourceCode (snd (t_range lastComment)) true) ;;;
           skipComments fuel' next
       end
  else ret lastComment.

(** Lines 418-465: the callback of [declaration.declarations.map]. *)
Definition splitDeclarator (node : Node) (declarator : Declarator) : M (option Edit) :=
  match getTokenAfter sourceCode (snd (d_range declarator)) false with
  | None => ret None
  | Some tokenAfterDeclarator =>
      let afterComma :=
        getTokenAfter sourceCode (snd (t_range tokenAfterDeclarator)) true in
      if negb (String.eqb (t_value tokenAfterDeclarator) ",")
      then ret None
      else
        let exportPlacement :=
          if String.eqb (p_type (parent node)) "ExportNamedDeclaration"
          then "export " else "" in
        let keyword := String.app exportPlacement (kind_text (kind (decl node))) in
        afterComma <- deref afterComma ;;;
        if (fst (t_range afterComma) =? snd (t_range tokenAfterDeclarator))%nat
        then ret (Some (replaceText tokenAfterDeclarator
                          (String.app "; " (String.app keyword " "))))
        else if (t_end_line tokenAfterDeclarator <? t_start_line afterComma)%nat
                || String.eqb (t_type afterComma) "Line"
                || String.eqb (t_type afterComma) "Block"
        then
          lastComment <- skipComments (length (tokensAndComments sourceCode)) afterComma ;;;
          ret (Some (replaceTextRange
                       (fst (t_range tokenAfterDeclarator), fst (t_range lastComment))
                       (String.app ";"
                          (String.app
                             (slice (text sourceCode)
                                (snd (t_range tokenAfterDeclarator))
                                (fst (t_range lastComment)))
                             (String.app keyword " ")))))
        else ret (Some (replaceText tokenAfterDeclarator (String.app "; " keyword)))
  end.

(** The closure [fixer => declaration.declarations.map(...).filter(x => x)]. *)
Definition runSplitFix (node : Node) : M (list Edit) :=
  edits <- mapM (splitDeclarator node) (declarations (decl node)) ;;;
  ret (omap id edits).

(** Evaluation of a fixer closure by the host. *)
Definition runFix (f : Fix) : M (list Edit) :=
  match f with
  | JoinFix declaration previousNode => runJoinFix declaration previousNode
  | SplitFix node => runSplitFix node
  end.

(** ** Policy evaluator *)

(** [declarations.some(isRequire) && !declarations.every(isRequire)]. *)
Definition mixedRequires (ds : list Declarator) : bool :=
  existsb isRequire ds && negb (forallb isRequire ds).

Definition report (node : Node) (id : MessageId) (f : option Fix) : Report :=
  {| report_node := node;
     messageId := id;
     data_type := Some (kind (decl node));
     report_fix := f |}.

(** [parent.X === node] for a child slot [X] of the parent. *)
Definition is_node (slot : option nat) (node : Node) : bool :=
  bool_decide (slot = Some (nid (decl node))).

(** Lines 484-493. *)
Definition checkMixedRequires (node : Node) : list Report :=
  let type := kind (decl node) in
  if mode_is opt_initialized type MODE_ALWAYS
     && separateRequires options
     && mixedRequires (declarations (decl node))
  then [ {| report_node := node; messageId := splitRequires;
            data_type := None; report_fix := None |} ]
  else [].

(** Line 496:
    [(parent.body && parent.body.length > 0 && parent.body.indexOf(node)) || 0].
    A [body] that is not an array has no [length]. *)
Definition nodeIndex (node : Node) : Z :=
  match p_body (parent node) with
  | Some body =>
      if Nat.ltb 0 (length body)
      then findIndex (fun s => statement_id s =? nid (decl node))%nat body
      else 0%Z
  | None => 0%Z
  end.

(** Lines 495-541. *)
Definition checkConsecutive (node : Node) : M (list Report) :=
  let type := kind (decl node) in
  let ds := declarations (decl node) in
  let declarationCounts := countDeclarations ds in
  if (0 <? nodeIndex node)%Z
  then
    previousNode <-
      deref (array_get (default [] (p_body (parent node))) (nodeIndex node - 1)) ;;;
    match previousNode with
    | VariableDeclarationStatement previous =>
        let declarationsWithPrevious := ds ++ declarations previous in
        if bool_decide (kind previous = type)
           && negb (mixedRequires declarationsWithPrevious)
        then
          let previousDeclCounts := countDeclarations (declarations previous) in
          if mode_is opt_initialized type MODE_CONSECUTIVE
             && mode_is opt_uninitialized type MODE_CONSECUTIVE
          then
            f <- joinDeclarations node ;;;
            ret [report node combine (Some f)]
          else if mode_is opt_initialized type MODE_CONSECUTIVE
                  && Nat.ltb 0 (count_initialized declarationCounts)
                  && Nat.ltb 0 (count_initialized previousDeclCounts)
          then
            f <- joinDeclarations node ;;;
            ret [report node combineInitialized (Some f)]
          else if mode_is opt_uninitialized type MODE_CONSECUTIVE
                  && Nat.ltb 0 (count_uninitialized declarationCounts)
                  && Nat.ltb 0 (count_uninitialized previousDeclCounts)
          then
            f <- joinDeclarations node ;;;
            ret [report node combineUninitialized (Some f)]
          else ret []
        else ret []
    | OtherStatement _ _ _ => ret []
    end
  else ret [].

(** Lines 543-579.  The boolean of the result tells whether the
    [return] of line 567 was taken. *)
Definition checkAlways (node : Node) : M (list Report * bool) :=
  let type := kind (decl node) in
  let ds := declarations (decl node) in
  let declarationCounts := countDeclarations ds in
  only <- hasOnlyOneStatement type ds ;;;
  if negb only
  then
    if mode_is opt_initialized type MODE_ALWAYS
       && mode_is opt_uninitialized type MODE_ALWAYS
    then
      f <- joinDeclarations node ;;;
      ret ([report node combine (Some f)], false)
    else
      first <-
        (if mode_is opt_initialized type MODE_ALWAYS
            && Nat.ltb 0 (count_initialized declarationCounts)
         then
           f <- joinDeclarations node ;;;
           ret [report node combineInitialized (Some f)]
         else ret []) ;;;
      if mode_is opt_uninitialized type MODE_ALWAYS
         && Nat.ltb 0 (count_uninitialized declarationCounts)
      then
        if is_node (p_left (parent node)) node
           && (String.eqb (p_type (parent node)) "ForInStatement"
               || String.eqb (p_type (parent node)) "ForOfStatement")
        then ret (first, true)
        else
          f <- joinDeclarations node ;;;
          ret (first ++ [report node combineUninitialized (Some f)], false)
      else ret (first, false)
  else ret ([], false).

(** Lines 581-621. *)
Definition checkNever (node : Node) : list Report :=
  let type := kind (decl node) in
  let declarationCounts := countDeclarations (declarations (decl node)) in
  if negb (String.eqb (p_type (parent node)) "ForStatement")
     || negb (is_node (p_init (parent node)) node)
  then
    let totalDeclarations :=
      count_uninitialized declarationCounts + count_initialized declarationCounts in
    if Nat.ltb 1 totalDeclarations
    then
      if mode_is opt_initialized type MODE_NEVER
         && mode_is opt_uninitialized type MODE_NEVER
      then [report node split (splitDeclarations node)]
      else if mode_is opt_initialized type MODE_NEVER
              && Nat.ltb 0 (count_initialized declarationCounts)
      then [report node splitInitialized (splitDeclarations node)]
      else if mode_is opt_uninitialized type MODE_NEVER
              && Nat.ltb 0 (count_uninitialized declarationCounts)
      then [report node splitUninitialized (splitDeclarations node)]
      else []
    else []
  else [].

(** Lines 474-622.  The result is the list of [context.report] calls in
    the order they are made. *)
Definition checkVariableDeclaration (node : Node) : M (list Report) :=
  match options_get options (kind (decl node)) with
  | None => ret []
  | Some _ =>
      let requires := checkMixedRequires node in
      consecutive <- checkConsecutive node ;;;
      always <- checkAlways node ;;;
      if snd always
      then ret (requires ++ consecutive ++ fst always)
      else ret (requires ++ consecutive ++ fst always ++ checkNever node)
  end.

(** ** Visitor *)

(** What the host's traversal tells the rule: it enters a node, it
    leaves a node, or it enters a [VariableDeclaration] (the only hook
    that reads its node). *)
Inductive Event :=
| Enter (type : string)
| Exit (type : string)
| EnterVariableDeclaration (node : Node).

Definition functionTypes : list string :=
  ["Program"; "FunctionDeclaration"; "FunctionExpression";
   "ArrowFunctionExpression"; "StaticBlock"].

Definition blockTypes : list string :=
  ["BlockStatement"; "ForStatement"; "ForInStatement"; "ForOfStatement";
   "SwitchStatement"].

Definition is_in (type : string) (types : list string) : bool :=
  existsb (String.eqb type) types.

(** Lines 628-652: the hooks returned by [create]. *)
Definition visit (e : Event) : M (list Report) :=
  match e with
  | Enter type =>
      if is_in type functionTypes then startFunction ;;; ret []
      else if is_in type blockTypes then startBlock ;;; ret []
      else ret []
  | Exit type =>
      if is_in type functionTypes then endFunction ;;; ret []
      else if is_in type blockTypes then endBlock ;;; ret []
      else ret []
  | EnterVariableDeclaration node => checkVariableDeclaration node
  end.

(** The host fires the hooks in document order. *)
Fixpoint traverse (events : list Event) : M (list Report) :=
  match events with
  | [] => ret []
  | e :: events' =>
      reports <- visit e ;;;
      reports' <- traverse events' ;;;
      ret (reports ++ reports')
  end.

End Create.

(** The state of a rule instance before the traversal starts. *)
Definition initial : Analyzer := mkAnalyzer [] [].

(** * The [no-undefined] rule

    The first module of [src/eslint/lib/rules/no-undefined.js]: every
    use of [undefined] as an identifier is reported, scope by scope. *)
Module NoUndefined.

(** An entry of [variable.references]: [init] is [true], [false] or
    left out, [identifier] is the identity of the identifier node. *)
Record Reference := mkReference {
  ref_init : option bool;
  identifier : nat
}.

(** An entry of [variable.defs]; [name] is the identity of the name node. *)
Record Def := mkDef { name : nat }.

Record ScopeVariable := mkVariable {
  references : list Reference;
  defs : list Def
}.

#[local] Unset Elimination Schemes.

(** A scope of the scope manager: the map [set] from names to
    variables, and the child scopes. *)
Inductive Scope :=
| mkScopeNode (set : gmap string ScopeVariable) (childScopes : list Scope).

#[local] Set Elimination Schemes.

(** [scope.set] and [scope.childScopes]. *)
Definition scope_set (s : Scope) : gmap string ScopeVariable :=
  match s with mkScopeNode set _ => set end.

Definition childScopes (s : Scope) : list Scope :=
  match s with mkScopeNode _ childScopes => childScopes end.

(** [!ref.init] *)
Definition not_init (r : Reference) : bool :=
  match ref_init r with
  | Some true => false
  | _ => true
  end.

(** Lines 39-44 and 52-69: the nodes [checkScope] reports, in order. *)
Definition checkScope (scope : Scope) : list nat :=
  match scope_set scope !! "undefined" with
  | None => []
  | Some undefinedVar =>
      map identifier (List.filter not_init (references undefinedVar))
      ++ map name (defs undefinedVar)
  end.

(** Lines 77-82: the [while] loop over the stack of scopes, with the
    reports made so far.  A turn pops the last scope, pushes its
    children and checks it; [None] is fuel used up with scopes left. *)
Fixpoint loop (fuel : nat) (stack : list Scope) (reported : list nat)
    : option (list nat) :=
  match last stack with
  | None => Some reported
  | Some scope =>
      match fuel with
      | O => None
      | S fuel' =>
          loop fuel' (removelast stack ++ childScopes scope)
               (reported ++ checkScope scope)
      end
  end.

(** The number of scopes of a tree; it bounds the turns of the loop. *)
Fixpoint countScopes (s : Scope) : nat :=
  match s with
  | mkScopeNode _ children => S (fold_right (fun c n => countScopes c + n) 0 children)
  end.

(** Lines 72-83: the ["Program:exit"] hook on the global scope. *)
Definition programExit (globalScope : Scope) : option (list nat) :=
  loop (countScopes globalScope) [globalScope] [].

(** The scopes of a tree in the order the loop checks them: a scope,
    then its children from the last to the first. *)
Fixpoint checked_order (s : Scope) : list Scope :=
  match s with
  | mkScopeNode _ children =>
      s :: fold_right (fun c rest => rest ++ checked_order c) [] children
  end.

(** The scopes of a tree, parents first, children in source order. *)
Fixpoint all_scopes (s : Scope) : list Scope :=
  match s with
  | mkScopeNode _ children =>
      s :: fold_right (fun c rest => all_scopes c ++ rest) [] children
  end.

(** The number of scopes held by the trees of a stack. *)
Definition total_size (stack : list Scope) : nat :=
  fold_right (fun c n => countScopes c + n) 0 stack.

(** The order in which the loop checks the scopes of a stack: the
    last tree first. *)
Definition stack_order (stack : list Scope) : list Scope :=
  fold_right (fun c rest => rest ++ checked_order c) [] stack.

(** The scopes of the trees of a list, in source order. *)
Definition stack_scopes (stack : list Scope) : list Scope :=
  fold_right (fun c rest => all_scopes c ++ rest) [] stack.

(** The nodes a scope has to answer for: the identifiers of the
    references to its variable [undefined] that do not initialize it,
    and the names of its definitions. *)
Definition uses_undefined (scope : Scope) (n : nat) : Prop :=
  exists v,
    scope_set scope !! "undefined" = Some v
    /\ ((exists r, r ∈ references v /\ not_init r = true /\ identifier r = n)
        \/ (exists d, d ∈ defs v /\ name d = n)).

(** A global scope whose [undefined] is read once and initialized
    once, over a scope without [undefined] and a scope that declares it. *)
Definition example_scopes : Scope :=
  mkScopeNode
    {[ "undefined" :=
         mkVariable [mkReference None 11; mkReference (Some true) 12] [] ]}
    [ mkScopeNode {[ "x" := mkVariable [mkReference None 21] [mkDef 22] ]} [];
      mkScopeNode {[ "undefined" := mkVariable [] [mkDef 31] ]} [] ].

End NoUndefined.

(** * Vocabulary of the statements *)

(** ** Scope records *)

(** Some flag of the record is set. *)
Definition flagged (sc : ScopeRecord) : bool :=
  initialized sc || uninitialized sc || required sc.

(** What the ALWAYS/ALWAYS test answers once the scope record is
    flagged: the answer, spelled out. *)
Definition always_violation (ds : list Declarator) (sc : ScopeRecord) : bool :=
  negb (existsb isRequire ds)
  || (Nat.ltb 0 (count_uninitialized (countDeclarations ds)) && uninitialized sc)
  || required sc.

(** ** Diagnostics of one evaluation *)

Definition messageIds (reports : list Report) : list MessageId :=
  map messageId reports.

(** The combine family. *)
Definition is_combine (m : MessageId) : bool :=
  match m with
  | combine | combineInitialized | combineUninitialized => true
  | _ => false
  end.

(** The three diagnostics of the NEVER check. *)
Definition is_split (m : MessageId) : bool :=
  match m with
  | split | splitInitialized | splitUninitialized => true
  | _ => false
  end.

(** The mode test that guards each diagnostic of a part of the check
    that works with mode [mode]. *)
Definition gate (options : Options) (type : Kind) (mode : Mode)
    (generic ofInitialized ofUninitialized m : MessageId) : Prop :=
  (m = generic
   /\ mode_is options opt_initialized type mode = true
   /\ mode_is options opt_uninitialized type mode = true)
  \/ (m = ofInitialized /\ mode_is options opt_initialized type mode = true)
  \/ (m = ofUninitialized /\ mode_is options opt_uninitialized type mode = true).

Definition consecutive_gate options type :=
  gate options type MODE_CONSECUTIVE combine combineInitialized combineUninitialized.
Definition always_gate options type :=
  gate options type MODE_ALWAYS combine combineInitialized combineUninitialized.
Definition never_gate options type :=
  gate options type MODE_NEVER split splitInitialized splitUninitialized.

(** [parent.left === node] with a [for-in] or [for-of] parent (line 566). *)
Definition is_for_in_of_left (node : Node) : bool :=
  is_node (p_left (parent node)) node
  && (String.eqb (p_type (parent node)) "ForInStatement"
      || String.eqb (p_type (parent node)) "ForOfStatement").

(** [parent.type === "ForStatement" && parent.init === node] (line 582). *)
Definition is_for_init (node : Node) : bool :=
  String.eqb (p_type (parent node)) "ForStatement"
  && is_node (p_init (parent node)) node.

(** How often a diagnostic occurs among the reports. *)
Definition count_message (id : MessageId) (reports : list Report) : nat :=
  length (filter (fun m => m = id) (messageIds reports)).

(** Every diagnostic of one evaluation passed the mode test of the part
    of the check that made it. *)
Definition gated options type (m : MessageId) : Prop :=
  m = splitRequires
  \/ consecutive_gate options type m
  \/ always_gate options type m
  \/ never_gate options type m.

(** The priority order of the three NEVER diagnostics as the
    specification words it. *)
Definition split_by_priority (options : Options) (node : Node) : list MessageId :=
  let type := kind (decl node) in
  let counts := countDeclarations (declarations (decl node)) in
  if mode_is options opt_initialized type MODE_NEVER
     && mode_is options opt_uninitialized type MODE_NEVER
  then [split]
  else if mode_is options opt_initialized type MODE_NEVER
          && Nat.ltb 0 (count_initialized counts)
  then [splitInitialized]
  else if mode_is options opt_uninitialized type MODE_NEVER
          && Nat.ltb 0 (count_uninitialized counts)
  then [splitUninitialized]
  else [].

(** The type of the node that holds the statement, looking through an
    [export] wrapper as line 414 does. *)
Definition enclosing_type (node : Node) : string :=
  if String.eqb (p_type (parent node)) "ExportNamedDeclaration"
  then p_parent_type (parent node)
  else p_type (parent node).

(** ** Computations and traversals *)

(** A computation that neither reads nor writes the analyzer state:
    it throws in every state, or returns one value in every state and
    hands the state back. *)
Definition stateless {A} (m : M A) : Prop :=
  (forall st, m st = None) \/ (exists x, forall st, m st = Some (x, st)).



(** Event sequences in which every [Enter] has its [Exit]. *)
Inductive balanced : list Event -> Prop :=
| balanced_nil : balanced []
| balanced_declaration node events :
    balanced events -> balanced (EnterVariableDeclaration node :: events)
| balanced_node type inner events :
    balanced inner -> balanced events ->
    balanced (Enter type :: inner ++ Exit type :: events).

(** Events other than declarations. *)
Definition is_enter_exit (e : Event) : bool :=
  match e with
  | EnterVariableDeclaration _ => false
  | _ => true
  end.

(** The parser gives every [VariableDeclaration] at least one declarator. *)
Definition has_declarators (e : Event) : bool :=
  match e with
  | EnterVariableDeclaration node => Nat.ltb 0 (length (declarations (decl node)))
  | _ => true
  end.

(** ** Further vocabulary *)

(** One record is at least as flagged as another. *)
Definition flags_le (sc sc' : ScopeRecord) : Prop :=
  (initialized sc = true -> initialized sc' = true)
  /\ (uninitialized sc = true -> uninitialized sc' = true)
  /\ (required sc = true -> required sc' = true).

(** The flags a statement contributes, whatever the record holds. *)
Definition contribution (options : Options) (type : Kind) (ds : list Declarator)
    : ScopeRecord :=
  recordTypes options type ds fresh_scope.

Definition merge (sc sc' : ScopeRecord) : ScopeRecord :=
  mkScope (initialized sc || initialized sc')
          (uninitialized sc || uninitialized sc')
          (required sc || required sc').

(** [parent.body[nodeIndex - 1]] when [nodeIndex > 0]. *)
Definition previous_sibling (node : Node) : option Statement :=
  if (0 <? nodeIndex node)%Z
  then array_get (default [] (p_body (parent node))) (nodeIndex node - 1)
  else None.

(** The previous sibling is a declaration of the same kind, and the
    declarators of both do not mix requires with others. *)
Definition joinable (node : Node) : bool :=
  match previous_sibling node with
  | Some (VariableDeclarationStatement previous) =>
      bool_decide (kind previous = kind (decl node))
      && negb (mixedRequires (declarations (decl node) ++ declarations previous))
  | _ => false
  end.

(** A declaration statement of kind [type] without requires. *)
Definition plain_statement (type : Kind) (node : Node) : Prop :=
  kind (decl node) = type
  /\ existsb isRequire (declarations (decl node)) = false
  /\ declarations (decl node) <> [].


(** * Concrete programs *)

(** Modelled from the spec: the value of [STATEMENT_LIST_PARENTS] in
    the concrete programs, the types of the nodes whose children form a
    syntactic statement list.  The theorems hold for every value. *)
Definition statementListParents : gset string :=
  {[ "Program"; "BlockStatement"; "StaticBlock"; "SwitchCase" ]}.

(** The analyzer after the [Program] hook. *)
Definition in_program : Analyzer :=
  mkAnalyzer [fresh_scope] [mkBlock fresh_scope fresh_scope].

(** A [Program] parent with the given statements as its body. *)
Definition program_of (body : list VariableDeclaration) : Parent :=
  mkParent "Program" (Some (map VariableDeclarationStatement body)) None None "".

(** [var a = require("x"), b = 1;] *)
Definition requireAndNumber : VariableDeclaration :=
  mkVariableDeclaration 1 Kvar
    [ mkDeclarator (4, 20) (Some (CallExpression (Some "require")));
      mkDeclarator (22, 27) (Some OtherExpression) ]
    (0, 28).

Definition requireAndNumber_node : Node :=
  mkNode requireAndNumber (program_of [requireAndNumber]).

(** [{ separateRequires: true, var: mode, let: mode, const: mode }] *)
Definition separateRequires_with (mode : Mode) : Options :=
  deriveOptions
    (ConfigObject (mkModeObject true (Some mode) (Some mode) (Some mode) None None)).

(** [var a = 1; var b = 2, c;] *)
Definition firstInitialized : VariableDeclaration :=
  mkVariableDeclaration 1 Kvar [mkDeclarator (4, 9) (Some OtherExpression)] (0, 10).

Definition initializedAndBare : VariableDeclaration :=
  mkVariableDeclaration 2 Kvar
    [mkDeclarator (15, 20) (Some OtherExpression); mkDeclarator (22, 23) None]
    (11, 24).

Definition firstInitialized_node : Node :=
  mkNode firstInitialized (program_of [firstInitialized; initializedAndBare]).

Definition initializedAndBare_node : Node :=
  mkNode initializedAndBare (program_of [firstInitialized; initializedAndBare]).

(** [{ initialized: "always", uninitialized: "never" }] *)
Definition always_initialized_never_uninitialized : Options :=
  deriveOptions
    (ConfigObject
       (mkModeObject false None None None (Some MODE_NEVER) (Some MODE_ALWAYS))).

(** The analyzer after [var a = 1;] when the initialized mode is ALWAYS. *)
Definition after_firstInitialized : Analyzer :=
  mkAnalyzer [mkScope true false false] [mkBlock fresh_scope fresh_scope].

(** What ["always"] reports for the second statement. *)
Definition combine_initializedAndBare : list Report :=
  [report initializedAndBare_node combine
     (Some (JoinFix (mkDeclarator (15, 20) (Some OtherExpression))
              (Some (VariableDeclarationStatement firstInitialized))))].

(** [var a, b;] *)
Definition twoBare : VariableDeclaration :=
  mkVariableDeclaration 1 Kvar
    [mkDeclarator (4, 5) None; mkDeclarator (7, 8) None] (0, 9).

Definition twoBare_node : Node := mkNode twoBare (program_of [twoBare]).

Definition twoBare_source : SourceCode :=
  mkSourceCode "var a, b;"
    [ mkToken "Keyword" "var" (0, 3) 1 1;
      mkToken "Identifier" "a" (4, 5) 1 1;
      mkToken "Punctuator" "," (5, 6) 1 1;
      mkToken "Identifier" "b" (7, 8) 1 1;
      mkToken "Punctuator" ";" (8, 9) 1 1 ].

Definition twoBare_events : list Event :=
  [Enter "Program"; EnterVariableDeclaration twoBare_node; Exit "Program"].

(** The uniform modes ["always"] and ["never"]. *)
Definition always : Options := deriveOptions (ConfigString MODE_ALWAYS).
Definition never : Options := deriveOptions (ConfigString MODE_NEVER).

(** [var a; var b;] *)
Definition bareA : VariableDeclaration :=
  mkVariableDeclaration 1 Kvar [mkDeclarator (4, 5) None] (0, 6).

Definition bareB : VariableDeclaration :=
  mkVariableDeclaration 2 Kvar [mkDeclarator (11, 12) None] (7, 13).

Definition bareA_node : Node := mkNode bareA (program_of [bareA; bareB]).
Definition bareB_node : Node := mkNode bareB (program_of [bareA; bareB]).

Definition bareAB_source : SourceCode :=
  mkSourceCode "var a; var b;"
    [ mkToken "Keyword" "var" (0, 3) 1 1;
      mkToken "Identifier" "a" (4, 5) 1 1;
      mkToken "Punctuator" ";" (5, 6) 1 1;
      mkToken "Keyword" "var" (7, 10) 1 1;
      mkToken "Identifier" "b" (11, 12) 1 1;
      mkToken "Punctuator" ";" (12, 13) 1 1 ].

(** [if (foo) var x, y;] *)
Definition ifBody : VariableDeclaration :=
  mkVariableDeclaration 1 Kvar
    [mkDeclarator (13, 14) None; mkDeclarator (16, 17) None] (9, 18).

Definition ifBody_node : Node :=
  mkNode ifBody (mkParent "IfStatement" None None None "Program").

(** The children of the program [var a, b; { }]. *)
Definition declaration_then_block : list Event :=
  [EnterVariableDeclaration twoBare_node;
   Enter "BlockStatement"; Exit "BlockStatement"].

(** [{ uninitialized: "always", initialized: "never" }] *)
Definition always_uninitialized_never_initialized : Options :=
  deriveOptions
    (ConfigObject
       (mkModeObject false None None None (Some MODE_ALWAYS) (Some MODE_NEVER))).

(** The declaration in the header of [var a; for (var b in x) {}]. *)
Definition forInLeft : VariableDeclaration :=
  mkVariableDeclaration 3 Kvar [mkDeclarator (16, 17) None] (12, 17).

Definition forInLeft_node : Node :=
  mkNode forInLeft (mkParent "ForInStatement" None None (Some 3) "Program").

(** The analyzer at that declaration, [var a;] being recorded. *)
Definition in_for_in : Analyzer :=
  mkAnalyzer [mkScope false true false]
    [mkBlock fresh_scope fresh_scope; mkBlock fresh_scope fresh_scope].

(** ** Further programs *)

(** The uniform mode ["consecutive"]. *)
Definition consecutive : Options := deriveOptions (ConfigString MODE_CONSECUTIVE).

(** The analyzer after [var a, b;] under ["always"]. *)
Definition after_twoBare : Analyzer :=
  mkAnalyzer [mkScope false true false] [mkBlock fresh_scope fresh_scope].

(** [var z = require("z"); var a = require("x"), b = 1, c;] *)
Definition requireOnly : VariableDeclaration :=
  mkVariableDeclaration 1 Kvar
    [mkDeclarator (4, 20) (Some (CallExpression (Some "require")))] (0, 21).

Definition requireNumberBare : VariableDeclaration :=
  mkVariableDeclaration 2 Kvar
    [ mkDeclarator (26, 42) (Some (CallExpression (Some "require")));
      mkDeclarator (44, 49) (Some OtherExpression);
      mkDeclarator (51, 52) None ]
    (22, 53).

Definition requireOnly_node : Node :=
  mkNode requireOnly (program_of [requireOnly; requireNumberBare]).

Definition requireNumberBare_node : Node :=
  mkNode requireNumberBare (program_of [requireOnly; requireNumberBare]).

(** [{ separateRequires: true, initialized: "always", uninitialized: "never" }] *)
Definition separate_always_initialized_never_uninitialized : Options :=
  deriveOptions
    (ConfigObject
       (mkModeObject true None None None (Some MODE_NEVER) (Some MODE_ALWAYS))).

(** The analyzer after [var z = require("z");] under those options. *)
Definition after_requireOnly : Analyzer :=
  mkAnalyzer [mkScope false false true] [mkBlock fresh_scope fresh_scope].

(** What those options report for the second statement. *)
Definition three_reports : list Report :=
  [ {| report_node := requireNumberBare_node; messageId := splitRequires;
       data_type := None; report_fix := None |};
    report requireNumberBare_node combineInitialized
      (Some (JoinFix (mkDeclarator (26, 42) (Some (CallExpression (Some "require"))))
               (Some (VariableDeclarationStatement requireOnly))));
    report requireNumberBare_node splitUninitialized
      (Some (SplitFix requireNumberBare_node)) ].

(** What the join fixer returns for the second statement of [var a; var b;]. *)
Definition bareB_join_edits : list Edit := [mkEdit (5, 6) ","; mkEdit (7, 10) ""].



Definition comment_token : Token := mkToken "Block" "c" (7, 12) 1 1.

Definition commented_source : SourceCode :=
  mkSourceCode "var a, /*c*/ b;"
    [ mkToken "Keyword" "var" (0, 3) 1 1;
      mkToken "Identifier" "a" (4, 5) 1 1;
      mkToken "Punctuator" "," (5, 6) 1 1;
      comment_token;
      mkToken "Identifier" "b" (13, 14) 1 1;
      mkToken "Punctuator" ";" (14, 15) 1 1 ].

(** What the split fixer returns for it. *)
Definition commented_split_edits : list Edit := [mkEdit (5, 13) "; /*c*/ var "].

(** [using a = f();] *)
Definition usingStatement : VariableDeclaration :=
  mkVariableDeclaration 1 Kusing [mkDeclarator (6, 13) (Some OtherExpression)] (0, 14).

Definition usingStatement_node : Node :=
  mkNode usingStatement (program_of [usingStatement]).

(** * Properties *)

(** ** Stack and monad lemmas *)

Lemma last_alter_last {A} (f : A -> A) (l : list A) :
  last (alter_last f l) = f <$> last l.
Proof.
  unfold alter_last. rewrite !last_lookup, length_alter.
  replace (length l - 1) with (pred (length l)) by lia.
  destruct (l !! pred (length l)) as [x|] eqn:E.
  - rewrite (list_lookup_alter_eq f l _). now rewrite E.
  - rewrite (list_lookup_alter_eq f l _). now rewrite E.
Qed.

Lemma length_alter_last {A} (f : A -> A) (l : list A) :
  length (alter_last f l) = length l.
Proof. apply length_alter. Qed.

Lemma getCurrentScope_setCurrentScope type sc sc0 st :
  getCurrentScope type st = Some sc0 ->
  getCurrentScope type (setCurrentScope type sc st) = Some sc.
Proof.
  destruct type; simpl; try discriminate; rewrite last_alter_last;
    destruct (last _); simpl; congruence.
Qed.

(** ** Facts about [recordTypes] *)

Lemma recordType_flagged options type sc d :
  flagged sc = true -> flagged (recordType options type sc d) = true.
Proof.
  unfold flagged, recordType. destruct sc as [i u r]; simpl.
  destruct (init d); repeat (case_match; simpl); intros; auto with bool;
    repeat rewrite orb_true_r; auto.
Qed.

Lemma recordTypes_flagged options type ds sc :
  flagged sc = true -> flagged (recordTypes options type ds sc) = true.
Proof.
  unfold recordTypes. revert sc.
  induction ds as [|d ds IH]; simpl; intros sc H; [assumption|].
  apply IH, recordType_flagged, H.
Qed.

Lemma recordType_always_flagged options type sc d :
  mode_is options opt_uninitialized type MODE_ALWAYS = true ->
  mode_is options opt_initialized type MODE_ALWAYS = true ->
  flagged (recordType options type sc d) = true.
Proof.
  intros Hu Hi. unfold flagged, recordType. rewrite Hu, Hi.
  destruct (init d); [destruct (separateRequires options && isRequire d)|];
    simpl; repeat rewrite orb_true_r; reflexivity.
Qed.

Lemma recordTypes_always_flagged options type ds sc :
  mode_is options opt_uninitialized type MODE_ALWAYS = true ->
  mode_is options opt_initialized type MODE_ALWAYS = true ->
  ds <> [] ->
  flagged (recordTypes options type ds sc) = true.
Proof.
  intros Hu Hi Hds. destruct ds as [|d ds]; [congruence|].
  unfold recordTypes; simpl. apply recordTypes_flagged.
  now apply recordType_always_flagged.
Qed.

(** ** The scope-wide ALWAYS test *)

Ltac run_monad :=
  unfold bind, get_state, put_state, deref, ret, throw in *; simpl in *.

Lemma hasOnlyOneStatement_result options type ds st sc :
  getCurrentScope type st = Some sc ->
  exists only : bool,
    hasOnlyOneStatement options type ds st =
      Some (only,
            if only
            then setCurrentScope type (recordTypes options type ds sc) st
            else st).
Proof.
  intros Hsc.
  cut (hasOnlyOneStatement options type ds st = Some (false, st)
       \/ hasOnlyOneStatement options type ds st
          = Some (true, setCurrentScope type (recordTypes options type ds sc) st)).
  { intros [H|H]; [exists false | exists true]; exact H. }
  unfold hasOnlyOneStatement. run_monad. rewrite Hsc. simpl.
  repeat case_match; auto.
Qed.

Lemma hasOnlyOneStatement_fresh options type ds st :
  getCurrentScope type st = Some fresh_scope ->
  hasOnlyOneStatement options type ds st =
    Some (true, setCurrentScope type (recordTypes options type ds fresh_scope) st).
Proof.
  intros Hsc. unfold hasOnlyOneStatement. run_monad. rewrite Hsc. simpl.
  rewrite !andb_false_r. reflexivity.
Qed.

(** C7: a call of [hasOnlyOneStatement] on a state with a current scope
    record returns; the record receives the writes of [recordTypes]
    exactly when the call returns true, and the state is left as it was
    when it returns false.  The first non-empty statement in a fresh
    scope under ALWAYS/ALWAYS returns true, and its single run of
    [recordTypes] changes the record. *)
Theorem hasOnlyOneStatement_records_iff_true options type ds st sc :
  getCurrentScope type st = Some sc ->
  (exists only : bool,
     hasOnlyOneStatement options type ds st =
       Some (only,
             if only
             then setCurrentScope type (recordTypes options type ds sc) st
             else st))
  /\ (mode_is options opt_uninitialized type MODE_ALWAYS = true ->
      mode_is options opt_initialized type MODE_ALWAYS = true ->
      sc = fresh_scope -> ds <> [] ->
      let st' := setCurrentScope type (recordTypes options type ds fresh_scope) st in
      hasOnlyOneStatement options type ds st = Some (true, st')
      /\ getCurrentScope type st' = Some (recordTypes options type ds fresh_scope)
      /\ recordTypes options type ds fresh_scope <> fresh_scope
      /\ st' <> st).
Proof.
  intros Hsc. split; [now apply hasOnlyOneStatement_result|].
  intros Hu Hi -> Hds st'.
  assert (Hne : recordTypes options type ds fresh_scope <> fresh_scope).
  { intros E.
    pose proof (recordTypes_always_flagged options type ds fresh_scope Hu Hi Hds) as F.
    rewrite E in F. discriminate. }
  assert (Hget : getCurrentScope type st'
                 = Some (recordTypes options type ds fresh_scope))
    by (eapply getCurrentScope_setCurrentScope; eassumption).
  repeat split; auto using hasOnlyOneStatement_fresh.
  intros E. rewrite E, Hsc in Hget. congruence.
Qed.

(** C3 (amended): with both modes ALWAYS and a scope record whose
    initialized or uninitialized flag is set, a statement without any
    require declarator is a violation; a statement with at least one
    require declarator, all of them or only some, is a violation only
    if it has an uninitialized declarator while the record's
    uninitialized flag is set, or if the record's required flag is set. *)
Theorem hasOnlyOneStatement_always_flagged options type ds st sc :
  mode_is options opt_uninitialized type MODE_ALWAYS = true ->
  mode_is options opt_initialized type MODE_ALWAYS = true ->
  getCurrentScope type st = Some sc ->
  uninitialized sc || initialized sc = true ->
  hasOnlyOneStatement options type ds st =
    Some (negb (always_violation ds sc),
          if always_violation ds sc
          then st
          else setCurrentScope type (recordTypes options type ds sc) st).
Proof.
  intros Hu Hi Hsc Hflag. unfold hasOnlyOneStatement, always_violation.
  run_monad. rewrite Hsc, Hu, Hi, Hflag. simpl.
  destruct (existsb isRequire ds); simpl; [|reflexivity].
  rewrite !andb_false_r, andb_true_r.
  destruct (Nat.ltb 0 _ && uninitialized sc); simpl; [reflexivity|].
  destruct (required sc); reflexivity.
Qed.

(** The premises of C3 as stated hold for [var b = require("x"), c = 2;]
    after [var a = 1;] under ["always"], only one of the two declarators
    is a require, and the test reports no violation. *)
Lemma hasOnlyOneStatement_some_requires_no_violation :
  let options := deriveOptions (ConfigString MODE_ALWAYS) in
  let sc := mkScope true false false in
  let st := mkAnalyzer [sc] [mkBlock fresh_scope fresh_scope] in
  let ds := [ mkDeclarator (15, 31) (Some (CallExpression (Some "require")));
              mkDeclarator (33, 38) (Some OtherExpression) ] in
  mode_is options opt_uninitialized Kvar MODE_ALWAYS = true
  /\ mode_is options opt_initialized Kvar MODE_ALWAYS = true
  /\ getCurrentScope Kvar st = Some sc
  /\ initialized sc || uninitialized sc = true
  /\ existsb isRequire ds = true
  /\ forallb isRequire ds = false
  /\ hasOnlyOneStatement options Kvar ds st = Some (true, st).
Proof. repeat split; vm_compute; reflexivity. Qed.

(** ** Which diagnostics each part of the check can make *)

Lemma joinDeclarations_inv node st f st' :
  joinDeclarations node st = Some (f, st') -> st' = st.
Proof.
  unfold joinDeclarations. run_monad.
  destruct (head (declarations (decl node))); simpl; congruence.
Qed.

Lemma joinDeclarations_total node st :
  declarations (decl node) <> [] ->
  exists f, joinDeclarations node st = Some (f, st).
Proof.
  unfold joinDeclarations. run_monad.
  destruct (declarations (decl node)); [congruence|]. simpl. eauto.
Qed.

(** Close a goal [Forall gate reports] on an explicit list of reports. *)
Ltac forall_gate :=
  repeat match goal with
         | H : _ && _ = true |- _ => apply andb_prop in H; destruct H
         end;
  repeat (apply Forall_cons_2 || apply Forall_nil_2); simpl;
  first [ left; solve [auto]
        | right; left; solve [auto]
        | right; right; solve [auto] ].

Lemma checkNever_gate options SLP node :
  Forall (fun r => never_gate options (kind (decl node)) (messageId r))
         (checkNever options SLP node).
Proof.
  unfold checkNever, never_gate, gate.
  repeat case_match; forall_gate.
Qed.

Lemma checkNever_length options SLP node :
  length (checkNever options SLP node) <= 1.
Proof. unfold checkNever. repeat case_match; simpl; lia. Qed.

Lemma checkConsecutive_inv options node st reports st' :
  checkConsecutive options node st = Some (reports, st') ->
  st' = st
  /\ Forall (fun r => consecutive_gate options (kind (decl node)) (messageId r)) reports.
Proof.
  unfold checkConsecutive, consecutive_gate, gate. run_monad.
  repeat (case_match; simpl in *; try discriminate);
    repeat match goal with
           | H : _ && _ = true |- _ => apply andb_prop in H; destruct H
           | H : joinDeclarations _ _ = Some _ |- _ =>
               apply joinDeclarations_inv in H; subst
           | H : Some _ = Some _ |- _ => inversion H; subst; clear H
           end;
    intros; simplify_eq; split; auto; forall_gate.
Qed.

Ltac invert_monad :=
  repeat match goal with
         | H : _ && _ = true |- _ => apply andb_prop in H; destruct H
         | H : joinDeclarations _ _ = Some _ |- _ =>
             apply joinDeclarations_inv in H; subst
         | H : Some _ = Some _ |- _ => inversion H; subst; clear H
         end.

Lemma checkAlways_inv options node st reports returned st' :
  checkAlways options node st = Some ((reports, returned), st') ->
  exists only,
    hasOnlyOneStatement options (kind (decl node)) (declarations (decl node)) st
      = Some (only, st')
    /\ Forall (fun r => always_gate options (kind (decl node)) (messageId r)) reports
    /\ (only = true -> reports = [] /\ returned = false)
    /\ (returned = true ->
        only = false
        /\ is_for_in_of_left node = true
        /\ mode_is options opt_uninitialized (kind (decl node)) MODE_ALWAYS = true
        /\ Nat.ltb 0 (count_uninitialized (countDeclarations (declarations (decl node))))
           = true).
Proof.
  unfold checkAlways, always_gate, gate, is_for_in_of_left. run_monad.
  destruct (hasOnlyOneStatement _ _ _ st) as [[only s]|]; [|discriminate].
  intros H. exists only. split.
  { destruct only; simpl in H;
      repeat (case_match; simpl in *; try discriminate); invert_monad; reflexivity. }
  destruct only; simpl in H.
  { invert_monad. repeat split; auto; discriminate. }
  repeat (case_match; simpl in *; try discriminate); invert_monad;
    (split; [forall_gate|]); (split; [discriminate|]);
    intros; try discriminate; repeat split; auto.
Qed.

(** [checkVariableDeclaration] in terms of its four parts. *)
Lemma checkVariableDeclaration_inv options SLP node st reports st' :
  checkVariableDeclaration options SLP node st = Some (reports, st') ->
  (options_get options (kind (decl node)) = None /\ reports = [] /\ st' = st)
  \/ (exists consecutive always returned,
        is_Some (options_get options (kind (decl node)))
        /\ checkConsecutive options node st = Some (consecutive, st)
        /\ checkAlways options node st = Some ((always, returned), st')
        /\ reports = checkMixedRequires options node ++ consecutive ++ always
                     ++ (if returned then [] else checkNever options SLP node)).
Proof.
  unfold checkVariableDeclaration.
  destruct (options_get options (kind (decl node))) as [ko|]; run_monad.
  - intros H. right.
    destruct (checkConsecutive options node st) as [[consecutive s]|] eqn:Ec;
      [|discriminate].
    destruct (checkConsecutive_inv _ _ _ _ _ Ec) as [-> _].
    destruct (checkAlways options node st) as [[[always returned] s']|] eqn:Ea;
      [|discriminate].
    exists consecutive, always, returned. simpl in H.
    destruct returned; inversion H; subst; rewrite ?app_nil_r; eauto 6.
  - intros H. inversion H. auto.
Qed.

Lemma findIndex_bounds {A} (p : A -> bool) (l : list A) :
  (-1 <= findIndex p l < Z.of_nat (length l))%Z.
Proof.
  induction l as [|x l IH]; simpl; [lia|].
  destruct (p x); [lia|].
  destruct (findIndex p l <? 0)%Z eqn:E; lia.
Qed.

Lemma checkConsecutive_total options node st :
  declarations (decl node) <> [] ->
  exists reports, checkConsecutive options node st = Some (reports, st).
Proof.
  intros Hds. unfold checkConsecutive. run_monad.
  destruct (0 <? nodeIndex node)%Z eqn:Hidx; [|eauto].
  assert (Hget : is_Some (array_get (default [] (p_body (parent node)))
                            (nodeIndex node - 1))).
  { unfold nodeIndex in *. destruct (p_body (parent node)) as [body|]; [|lia].
    destruct (Nat.ltb 0 (length body)); [|lia]. simpl.
    pose proof (findIndex_bounds
                  (fun s => statement_id s =? nid (decl node))%nat body) as B.
    unfold array_get. destruct (_ <? 0)%Z eqn:En; [lia|].
    apply lookup_lt_is_Some. lia. }
  destruct Hget as [previousNode ->]. simpl.
  destruct (joinDeclarations_total node st Hds) as [f Hf].
  destruct previousNode; [|eauto].
  repeat (case_match; simpl; eauto); rewrite Hf in *; simplify_eq; eauto.
Qed.

Lemma checkAlways_total options node st sc :
  declarations (decl node) <> [] ->
  getCurrentScope (kind (decl node)) st = Some sc ->
  exists result st', checkAlways options node st = Some (result, st').
Proof.
  intros Hds Hsc. unfold checkAlways. run_monad.
  destruct (hasOnlyOneStatement_result options _ (declarations (decl node)) _ _ Hsc)
    as [only ->].
  destruct only; simpl; [eauto|].
  pose proof (fun s => joinDeclarations_total node s Hds) as Hj.
  repeat first
    [ match goal with
      | |- context [joinDeclarations node ?s] =>
          let f := fresh "f" in destruct (Hj s) as [f ->]; simpl
      end
    | match goal with
      | |- context [if ?c then _ else _] => destruct c; simpl
      end ];
    eauto.
Qed.

Lemma checkVariableDeclaration_total options SLP node st :
  declarations (decl node) <> [] ->
  functionStack st <> [] ->
  blockStack st <> [] ->
  exists reports st',
    checkVariableDeclaration options SLP node st = Some (reports, st').
Proof.
  intros Hds Hf Hb. unfold checkVariableDeclaration.
  destruct (options_get options (kind (decl node))) as [ko|] eqn:Hko;
    [|unfold ret; eauto].
  assert (Hsc : is_Some (getCurrentScope (kind (decl node)) st)).
  { destruct (kind (decl node)); simpl in *; try discriminate;
      [destruct (functionStack st) using rev_ind
      |destruct (blockStack st) using rev_ind
      |destruct (blockStack st) using rev_ind];
      try congruence; rewrite last_snoc; simpl; eauto. }
  destruct Hsc as [sc Hsc].
  destruct (checkConsecutive_total options node st Hds) as [consecutive Hc].
  destruct (checkAlways_total options node st sc Hds Hsc) as (always & st' & Ha).
  run_monad. rewrite Hc. simpl. rewrite Ha. simpl.
  destruct (snd always); eauto.
Qed.

(** ** Counting diagnostics *)

Lemma count_message_app id reports reports' :
  count_message id (reports ++ reports')
  = count_message id reports + count_message id reports'.
Proof.
  unfold count_message, messageIds. now rewrite map_app, filter_app, length_app.
Qed.

Lemma count_message_none id reports :
  Forall (fun r => messageId r <> id) reports -> count_message id reports = 0.
Proof.
  unfold count_message, messageIds.
  induction 1 as [|r reports Hr _ IH]; [reflexivity|].
  simpl. rewrite filter_cons_False by assumption. exact IH.
Qed.

Lemma gate_not options type mode generic ofInitialized ofUninitialized id reports :
  generic <> id -> ofInitialized <> id -> ofUninitialized <> id ->
  Forall (fun r => gate options type mode generic ofInitialized ofUninitialized
                     (messageId r)) reports ->
  Forall (fun r => messageId r <> id) reports.
Proof.
  intros Hg Hi Hu H. eapply Forall_impl; [exact H|].
  intros r [[-> _]|[[-> _]|[-> _]]]; assumption.
Qed.

Lemma checkMixedRequires_messageIds options node :
  messageIds (checkMixedRequires options node)
  = if mode_is options opt_initialized (kind (decl node)) MODE_ALWAYS
       && separateRequires options
       && mixedRequires (declarations (decl node))
    then [splitRequires] else [].
Proof. unfold checkMixedRequires. now case_match. Qed.

Lemma mixedRequires_nonempty ds : mixedRequires ds = true -> ds <> [].
Proof. intros H ->. discriminate. Qed.

(** C1 (amended): for a statement of a configured kind that mixes
    require declarators with other declarators, with [separateRequires]
    enabled, the check returns and reports exactly one [splitRequires]
    diagnostic when the kind's initialized mode is ALWAYS, whatever its
    uninitialized mode; with any other initialized mode it reports none. *)
Theorem splitRequires_once_when_initialized_always options SLP node st :
  is_Some (options_get options (kind (decl node))) ->
  separateRequires options = true ->
  mixedRequires (declarations (decl node)) = true ->
  functionStack st <> [] ->
  blockStack st <> [] ->
  exists reports st',
    checkVariableDeclaration options SLP node st = Some (reports, st')
    /\ count_message splitRequires reports
       = if mode_is options opt_initialized (kind (decl node)) MODE_ALWAYS
         then 1 else 0.
Proof.
  intros [ko Hko] Hsep Hmixed Hf Hb.
  destruct (checkVariableDeclaration_total options SLP node st
              (mixedRequires_nonempty _ Hmixed) Hf Hb) as (reports & st' & Hrun).
  exists reports, st'. split; [exact Hrun|].
  apply checkVariableDeclaration_inv in Hrun.
  destruct Hrun as [[Hnone _]|(consecutive & always & returned & _ & Hc & Ha & ->)];
    [congruence|].
  apply checkConsecutive_inv in Hc. destruct Hc as [_ Hc].
  apply checkAlways_inv in Ha. destruct Ha as (only & _ & Ha & _).
  pose proof (checkNever_gate options SLP node) as Hn.
  rewrite !count_message_app.
  rewrite (count_message_none _ consecutive), (count_message_none _ always).
  - replace (count_message splitRequires
               (if returned then [] else checkNever options SLP node)) with 0.
    + unfold count_message. rewrite checkMixedRequires_messageIds, Hsep, Hmixed.
      rewrite !andb_true_r. now case_match.
    + destruct returned; [reflexivity|]. symmetry. apply count_message_none.
      revert Hn. apply gate_not; discriminate.
  - revert Ha. apply gate_not; discriminate.
  - revert Hc. apply gate_not; discriminate.
Qed.

(** [var a = require("x"), b = 1;] under
    [{ separateRequires: true }] and mode ["always"]. *)
Lemma splitRequires_once_under_always :
  is_Some (options_get (separateRequires_with MODE_ALWAYS)
             (kind (decl requireAndNumber_node)))
  /\ separateRequires (separateRequires_with MODE_ALWAYS) = true
  /\ mixedRequires (declarations (decl requireAndNumber_node)) = true
  /\ exists reports st',
       checkVariableDeclaration (separateRequires_with MODE_ALWAYS)
         statementListParents requireAndNumber_node in_program
       = Some (reports, st')
       /\ count_message splitRequires reports
          = if mode_is (separateRequires_with MODE_ALWAYS) opt_initialized
                 (kind (decl requireAndNumber_node)) MODE_ALWAYS
            then 1 else 0.
Proof.
  split; [eexists; reflexivity|].
  split; [reflexivity|]. split; [reflexivity|].
  apply (splitRequires_once_when_initialized_always
           (separateRequires_with MODE_ALWAYS) statementListParents
           requireAndNumber_node in_program);
    first [ eexists; reflexivity | reflexivity | discriminate ].
Defined.

(** C1 as stated fails: with [{ separateRequires: true }] and mode
    ["never"], [var a = require("x"), b = 1;] gets the generic split
    diagnostic and no [splitRequires]. *)
Lemma splitRequires_absent_under_never :
  is_Some (options_get (separateRequires_with MODE_NEVER)
             (kind (decl requireAndNumber_node)))
  /\ separateRequires (separateRequires_with MODE_NEVER) = true
  /\ mixedRequires (declarations (decl requireAndNumber_node)) = true
  /\ exists reports,
       checkVariableDeclaration (separateRequires_with MODE_NEVER)
         statementListParents requireAndNumber_node in_program
       = Some (reports, in_program)
       /\ messageIds reports = [split]
       /\ count_message splitRequires reports = 0.
Proof.
  split; [eexists; reflexivity|].
  split; [reflexivity|]. split; [reflexivity|].
  eexists. split; [vm_compute; reflexivity|].
  split; vm_compute; reflexivity.
Qed.

(** ** Combine against split *)

Lemma mode_is_inj options slot type m1 m2 :
  mode_is options slot type m1 = true ->
  mode_is options slot type m2 = true ->
  m1 = m2.
Proof.
  unfold mode_is, is_mode. destruct (options_get options type); [|discriminate].
  intros H1 H2. apply bool_decide_eq_true_1 in H1, H2. congruence.
Qed.

(** Two mode tests on one slot that cannot both succeed. *)
Ltac mode_conflict :=
  match goal with
  | H1 : mode_is ?o ?s ?t ?m1 = true, H2 : mode_is ?o ?s ?t ?m2 = true |- _ =>
      discriminate (mode_is_inj o s t m1 m2 H1 H2)
  end.

Lemma checkVariableDeclaration_gated options SLP node st reports st' :
  checkVariableDeclaration options SLP node st = Some (reports, st') ->
  Forall (gated options (kind (decl node))) (messageIds reports).
Proof.
  intros Hrun. apply checkVariableDeclaration_inv in Hrun.
  destruct Hrun as [(_ & -> & _)|(consecutive & always & returned & _ & Hc & Ha & ->)];
    [constructor|].
  apply checkConsecutive_inv in Hc. destruct Hc as [_ Hc].
  apply checkAlways_inv in Ha. destruct Ha as (only & _ & Ha & _).
  pose proof (checkNever_gate options SLP node) as Hn.
  unfold messageIds. rewrite !map_app, !Forall_app, !Forall_fmap.
  repeat split.
  - unfold checkMixedRequires. case_match; repeat constructor.
  - eapply Forall_impl; [exact Hc|]. unfold gated; simpl; auto.
  - eapply Forall_impl; [exact Ha|]. unfold gated; simpl; auto.
  - destruct returned; [constructor|].
    eapply Forall_impl; [exact Hn|]. unfold gated; simpl; auto.
Qed.

Ltac gated_cases H :=
  unfold gated, consecutive_gate, always_gate, never_gate, gate in H;
  decompose [and or] H; clear H; try discriminate.

(** The mode tests behind two diagnostics of one evaluation rule out
    the pairs below. *)
Lemma gated_exclusive options type m1 m2 :
  gated options type m1 -> gated options type m2 ->
  is_combine m1 = true -> is_split m2 = true ->
  (m1 = combine -> False)
  /\ (m2 = split -> False)
  /\ (m1 = combineInitialized -> m2 = splitInitialized -> False)
  /\ (m1 = combineUninitialized -> m2 = splitUninitialized -> False)
  /\ ((forall m, mode_is options opt_initialized type m
                 = mode_is options opt_uninitialized type m) -> False).
Proof.
  intros H1 H2 Hc Hs.
  gated_cases H1; gated_cases H2; subst; try discriminate;
    repeat split; intros; subst; try discriminate; try mode_conflict;
    repeat match goal with
           | U : forall m, mode_is _ _ _ m = mode_is _ _ _ m,
             H : mode_is _ opt_initialized _ _ = true |- _ => rewrite U in H
           end; mode_conflict.
Qed.

(** C2 (amended): in one evaluation of a statement, the generic combine
    diagnostic comes with no diagnostic of the NEVER check and the
    generic split diagnostic with no combine diagnostic;
    [combineInitialized] never comes with [splitInitialized], nor
    [combineUninitialized] with [splitUninitialized]; and when the two
    modes of the kind are equal, no combine diagnostic comes with any
    diagnostic of the NEVER check. *)
Theorem combine_split_exclusive options SLP node st reports st' :
  checkVariableDeclaration options SLP node st = Some (reports, st') ->
  let ids := messageIds reports in
  (combine ∈ ids -> Forall (fun m => is_split m = false) ids)
  /\ (split ∈ ids -> Forall (fun m => is_combine m = false) ids)
  /\ ~ (combineInitialized ∈ ids /\ splitInitialized ∈ ids)
  /\ ~ (combineUninitialized ∈ ids /\ splitUninitialized ∈ ids)
  /\ ((forall m, mode_is options opt_initialized (kind (decl node)) m
                 = mode_is options opt_uninitialized (kind (decl node)) m) ->
      ~ (Exists (fun m => is_combine m = true) ids
         /\ Exists (fun m => is_split m = true) ids)).
Proof.
  intros Hrun ids.
  pose proof (checkVariableDeclaration_gated _ _ _ _ _ _ Hrun) as G.
  fold ids in G. rewrite Forall_forall in G.
  repeat split.
  - intros Hin. apply Forall_forall. intros m Hm.
    destruct (is_split m) eqn:Es; [exfalso|reflexivity].
    destruct (gated_exclusive options _ combine m (G _ Hin) (G _ Hm) eq_refl Es)
      as (F & _).
    exact (F eq_refl).
  - intros Hin. apply Forall_forall. intros m Hm.
    destruct (is_combine m) eqn:Ec; [exfalso|reflexivity].
    destruct (gated_exclusive options _ m split (G _ Hm) (G _ Hin) Ec eq_refl)
      as (_ & F & _).
    exact (F eq_refl).
  - intros [H1 H2].
    destruct (gated_exclusive options _ _ _ (G _ H1) (G _ H2) eq_refl eq_refl)
      as (_ & _ & F & _).
    exact (F eq_refl eq_refl).
  - intros [H1 H2].
    destruct (gated_exclusive options _ _ _ (G _ H1) (G _ H2) eq_refl eq_refl)
      as (_ & _ & _ & F & _).
    exact (F eq_refl eq_refl).
  - intros U [H1 H2]. apply Exists_exists in H1, H2.
    destruct H1 as (m1 & Hin1 & Hc), H2 as (m2 & Hin2 & Hs).
    destruct (gated_exclusive options _ _ _ (G _ Hin1) (G _ Hin2) Hc Hs)
      as (_ & _ & _ & _ & F).
    exact (F U).
Qed.

(** C2 as stated fails: under
    [{ initialized: "always", uninitialized: "never" }] the second
    statement of [var a = 1; var b = 2, c;] gets [combineInitialized]
    from the ALWAYS check and [splitUninitialized] from the NEVER check
    in the same evaluation. *)
Lemma combine_and_split_together :
  let options := always_initialized_never_uninitialized in
  let st := mkAnalyzer [mkScope true false false]
                       [mkBlock fresh_scope fresh_scope] in
  traverse options statementListParents
    [Enter "Program"; EnterVariableDeclaration firstInitialized_node] initial
  = Some ([], st)
  /\ (exists reports,
        checkVariableDeclaration options statementListParents
          initializedAndBare_node st = Some (reports, st)
        /\ messageIds reports = [combineInitialized; splitUninitialized])
  /\ (exists always,
        checkAlways options initializedAndBare_node st = Some ((always, false), st)
        /\ messageIds always = [combineInitialized])
  /\ messageIds (checkNever options statementListParents initializedAndBare_node)
     = [splitUninitialized].
Proof.
  split; [vm_compute; reflexivity|].
  split; [eexists; split; vm_compute; reflexivity|].
  split; [eexists; split; vm_compute; reflexivity|].
  vm_compute; reflexivity.
Qed.

(** The second statement of [var a = 1; var b = 2, c;] under ["always"]. *)
Lemma combine_split_exclusive_always :
  checkVariableDeclaration (deriveOptions (ConfigString MODE_ALWAYS))
    statementListParents initializedAndBare_node after_firstInitialized
  = Some (combine_initializedAndBare, after_firstInitialized)
  /\ let ids := messageIds combine_initializedAndBare in
     (combine ∈ ids -> Forall (fun m => is_split m = false) ids)
     /\ (split ∈ ids -> Forall (fun m => is_combine m = false) ids)
     /\ ~ (combineInitialized ∈ ids /\ splitInitialized ∈ ids)
     /\ ~ (combineUninitialized ∈ ids /\ splitUninitialized ∈ ids)
     /\ ((forall m,
            mode_is (deriveOptions (ConfigString MODE_ALWAYS)) opt_initialized
              (kind (decl initializedAndBare_node)) m
            = mode_is (deriveOptions (ConfigString MODE_ALWAYS)) opt_uninitialized
                (kind (decl initializedAndBare_node)) m) ->
         ~ (Exists (fun m => is_combine m = true) ids
            /\ Exists (fun m => is_split m = true) ids)).
Proof.
  assert (Hrun :
    checkVariableDeclaration (deriveOptions (ConfigString MODE_ALWAYS))
      statementListParents initializedAndBare_node after_firstInitialized
    = Some (combine_initializedAndBare, after_firstInitialized))
    by (vm_compute; reflexivity).
  split; [exact Hrun|].
  exact (combine_split_exclusive _ _ _ _ _ _ Hrun).
Defined.

(** ** The NEVER check *)

Lemma countDeclarations_fold ds counts :
  let result :=
    fold_left
      (fun counts d =>
         match init d with
         | None => mkCounts (S (count_uninitialized counts)) (count_initialized counts)
         | Some _ => mkCounts (count_uninitialized counts) (S (count_initialized counts))
         end) ds counts in
  count_uninitialized result + count_initialized result
  = count_uninitialized counts + count_initialized counts + length ds.
Proof.
  revert counts. induction ds as [|d ds IH]; intros counts; simpl; [lia|].
  rewrite IH. destruct (init d); simpl; lia.
Qed.

Lemma countDeclarations_length ds :
  count_uninitialized (countDeclarations ds) + count_initialized (countDeclarations ds)
  = length ds.
Proof. unfold countDeclarations. now rewrite countDeclarations_fold. Qed.

Lemma checkNever_messageIds options SLP node :
  messageIds (checkNever options SLP node)
  = if is_for_init node then []
    else if Nat.ltb 1 (length (declarations (decl node)))
         then split_by_priority options node
         else [].
Proof.
  unfold checkNever, split_by_priority, is_for_init.
  rewrite countDeclarations_length, <- negb_andb.
  destruct (_ && _); simpl; [reflexivity|].
  repeat case_match; reflexivity.
Qed.

Lemma filter_is_split_gate options type mode reports :
  Forall (fun r => gate options type mode combine combineInitialized
                     combineUninitialized (messageId r)) reports ->
  List.filter is_split (messageIds reports) = [].
Proof.
  induction 1 as [|r reports Hr _ IH]; [reflexivity|]. simpl.
  destruct Hr as [[-> _]|[[-> _]|[-> _]]]; exact IH.
Qed.

Lemma filter_is_split_never options SLP node :
  List.filter is_split (messageIds (checkNever options SLP node))
  = messageIds (checkNever options SLP node).
Proof.
  pose proof (checkNever_gate options SLP node) as H.
  induction H as [|r reports Hr _ IH]; [reflexivity|]. simpl.
  destruct Hr as [[-> _]|[[-> _]|[-> _]]]; simpl; now rewrite IH.
Qed.

(** The NEVER diagnostics of an evaluation are those of [checkNever],
    unless line 567 returned before it. *)
Lemma checkVariableDeclaration_splits options SLP node st reports st' :
  checkVariableDeclaration options SLP node st = Some (reports, st') ->
  List.filter is_split (messageIds reports) = []
  \/ (is_Some (options_get options (kind (decl node)))
      /\ List.filter is_split (messageIds reports)
         = messageIds (checkNever options SLP node)).
Proof.
  intros Hrun. apply checkVariableDeclaration_inv in Hrun.
  destruct Hrun as [(_ & -> & _)|(consecutive & always & returned & Hko & Hc & Ha & ->)];
    [now left|].
  apply checkConsecutive_inv in Hc. destruct Hc as [_ Hc].
  apply checkAlways_inv in Ha. destruct Ha as (only & _ & Ha & _).
  unfold messageIds. rewrite !map_app, !List.filter_app.
  fold (messageIds consecutive) (messageIds always)
       (messageIds (checkMixedRequires options node)).
  rewrite (filter_is_split_gate _ _ _ _ Hc), (filter_is_split_gate _ _ _ _ Ha).
  rewrite checkMixedRequires_messageIds.
  destruct returned; [left|right; split; [exact Hko|]];
    case_match; simpl; auto using filter_is_split_never.
Qed.

Lemma checkVariableDeclaration_splits_not_left options SLP node st reports st' :
  checkVariableDeclaration options SLP node st = Some (reports, st') ->
  is_for_in_of_left node = false ->
  List.filter is_split (messageIds reports)
  = messageIds (checkNever options SLP node).
Proof.
  intros Hrun Hleft. pose proof Hrun as Hinv.
  apply checkVariableDeclaration_inv in Hinv.
  destruct Hinv as [(Hnone & -> & _)|(consecutive & always & returned & Hko & Hc & Ha & ->)].
  - rewrite checkNever_messageIds. unfold split_by_priority, mode_is.
    rewrite Hnone. simpl. now repeat case_match.
  - apply checkConsecutive_inv in Hc. destruct Hc as [_ Hc].
    apply checkAlways_inv in Ha. destruct Ha as (only & _ & Ha & _ & Hret).
    destruct returned; [destruct Hret as (_ & Hl & _); congruence|].
    unfold messageIds. rewrite !map_app, !List.filter_app.
    fold (messageIds consecutive) (messageIds always)
         (messageIds (checkMixedRequires options node)).
    rewrite (filter_is_split_gate _ _ _ _ Hc), (filter_is_split_gate _ _ _ _ Ha).
    rewrite checkMixedRequires_messageIds.
    case_match; simpl; auto using filter_is_split_never.
Qed.

Lemma split_by_priority_length options node :
  length (split_by_priority options node) <= 1.
Proof. unfold split_by_priority. repeat case_match; simpl; lia. Qed.

(** C5: a statement with more than one declarator that is not the init
    clause of a [for] statement gets at most one of the three NEVER
    diagnostics, the one the priority order selects; the init clause of
    a [for] statement gets none of them.  The grammar gives the left
    side of a [for-in] or [for-of] exactly one declarator. *)
Theorem never_split_by_priority options SLP node st :
  declarations (decl node) <> [] ->
  functionStack st <> [] ->
  blockStack st <> [] ->
  (is_for_in_of_left node = true -> length (declarations (decl node)) = 1) ->
  exists reports st',
    checkVariableDeclaration options SLP node st = Some (reports, st')
    /\ length (List.filter is_split (messageIds reports)) <= 1
    /\ (1 < length (declarations (decl node)) ->
        is_for_init node = false ->
        List.filter is_split (messageIds reports) = split_by_priority options node)
    /\ (is_for_init node = true ->
        List.filter is_split (messageIds reports) = []).
Proof.
  intros Hds Hf Hb Hleft.
  destruct (checkVariableDeclaration_total options SLP node st Hds Hf Hb)
    as (reports & st' & Hrun).
  exists reports, st'. split; [exact Hrun|].
  split; [|split].
  - destruct (checkVariableDeclaration_splits _ _ _ _ _ _ Hrun) as [->|[_ ->]];
      [simpl; lia|].
    unfold messageIds. rewrite length_map. apply checkNever_length.
  - intros Hmany Hinit.
    rewrite (checkVariableDeclaration_splits_not_left _ _ _ _ _ _ Hrun).
    + rewrite checkNever_messageIds, Hinit.
      apply Nat.ltb_lt in Hmany. now rewrite Hmany.
    + destruct (is_for_in_of_left node); [|reflexivity].
      specialize (Hleft eq_refl). lia.
  - intros Hinit.
    destruct (checkVariableDeclaration_splits _ _ _ _ _ _ Hrun) as [->|[_ ->]];
      [reflexivity|].
    now rewrite checkNever_messageIds, Hinit.
Qed.

(** ** The early return for [for-in] and [for-of] *)

Lemma hasOnlyOneStatement_false_inv options type ds st st' :
  hasOnlyOneStatement options type ds st = Some (false, st') -> st' = st.
Proof.
  unfold hasOnlyOneStatement. run_monad.
  destruct (getCurrentScope type st); simpl; [|discriminate].
  repeat case_match; congruence.
Qed.

(** C10: when the statement is the left side of a [for-in] or [for-of],
    the uninitialized mode of its kind is ALWAYS and the initialized
    mode is not, it has an uninitialized declarator and
    [hasOnlyOneStatement] found a violation, the check returns at line
    567: its diagnostics are those of the consecutive check alone, with
    no [combineUninitialized] and none of the NEVER diagnostics, and the
    state is as before. *)
Theorem for_in_of_left_returns_early options SLP node st st' :
  is_for_in_of_left node = true ->
  mode_is options opt_uninitialized (kind (decl node)) MODE_ALWAYS = true ->
  mode_is options opt_initialized (kind (decl node)) MODE_ALWAYS = false ->
  Nat.ltb 0 (count_uninitialized (countDeclarations (declarations (decl node)))) = true ->
  hasOnlyOneStatement options (kind (decl node)) (declarations (decl node)) st
    = Some (false, st') ->
  exists consecutive,
    checkConsecutive options node st = Some (consecutive, st)
    /\ checkAlways options node st = Some (([], true), st)
    /\ checkVariableDeclaration options SLP node st = Some (consecutive, st)
    /\ (combineUninitialized ∉ messageIds consecutive)
    /\ List.filter is_split (messageIds consecutive) = [].
Proof.
  intros Hleft Hu Hi Hcount Honly.
  pose proof (hasOnlyOneStatement_false_inv _ _ _ _ _ Honly) as ->.
  assert (Hds : declarations (decl node) <> []).
  { intros E. rewrite E in Hcount. discriminate. }
  destruct (checkConsecutive_total options node st Hds) as [consecutive Hc].
  assert (Ha : checkAlways options node st = Some (([], true), st)).
  { unfold checkAlways. run_monad. rewrite Honly. simpl.
    rewrite Hu, Hi, Hcount. simpl.
    unfold is_for_in_of_left in Hleft. now rewrite Hleft. }
  assert (Hko : is_Some (options_get options (kind (decl node)))).
  { unfold mode_is in Hu. destruct (options_get _ _); [eauto|discriminate]. }
  exists consecutive. repeat split; auto.
  - unfold checkVariableDeclaration. destruct Hko as [ko ->]. run_monad.
    rewrite Hc. simpl. rewrite Ha. simpl.
    unfold checkMixedRequires. rewrite Hi. simpl. now rewrite app_nil_r.
  - apply checkConsecutive_inv in Hc. destruct Hc as [_ Hc].
    intros Hin. unfold messageIds in Hin. apply list_elem_of_fmap in Hin.
    destruct Hin as (r & Hr & Hin). rewrite Forall_forall in Hc.
    specialize (Hc r Hin). unfold consecutive_gate, gate in Hc. rewrite <- Hr in Hc.
    decompose [and or] Hc; try discriminate. mode_conflict.
  - apply checkConsecutive_inv in Hc. destruct Hc as [_ Hc].
    eapply filter_is_split_gate, Hc.
Qed.

(** ** The unsafe-split veto *)

Lemma checkNever_fix options SLP node :
  Forall (fun r => report_fix r = splitDeclarations SLP node)
         (checkNever options SLP node).
Proof. unfold checkNever. repeat case_match; repeat constructor. Qed.

Lemma gate_not_split options type mode m :
  gate options type mode combine combineInitialized combineUninitialized m ->
  is_split m = false.
Proof. intros [[-> _]|[[-> _]|[-> _]]]; reflexivity. Qed.

(** C6: when the node that holds the statement is not a statement-list
    parent, [splitDeclarations] returns [null], whatever the options,
    and every NEVER diagnostic of the statement is reported without a
    fix. *)
Theorem splitDeclarations_veto options SLP node st reports st' :
  enclosing_type node ∉ SLP ->
  checkVariableDeclaration options SLP node st = Some (reports, st') ->
  splitDeclarations SLP node = None
  /\ Forall (fun r => is_split (messageId r) = true -> report_fix r = None) reports.
Proof.
  intros Hout Hrun.
  assert (Hnull : splitDeclarations SLP node = None).
  { unfold splitDeclarations, isInStatementList. fold (enclosing_type node).
    now rewrite bool_decide_eq_false_2. }
  split; [exact Hnull|].
  apply checkVariableDeclaration_inv in Hrun.
  destruct Hrun as [(_ & -> & _)|(consecutive & always & returned & _ & Hc & Ha & ->)];
    [constructor|].
  apply checkConsecutive_inv in Hc. destruct Hc as [_ Hc].
  apply checkAlways_inv in Ha. destruct Ha as (only & _ & Ha & _).
  rewrite !Forall_app. repeat split.
  - unfold checkMixedRequires. case_match; repeat constructor.
  - eapply Forall_impl; [exact Hc|]. intros r G E.
    apply gate_not_split in G. congruence.
  - eapply Forall_impl; [exact Ha|]. intros r G E.
    apply gate_not_split in G. congruence.
  - destruct returned; [constructor|].
    eapply Forall_impl; [apply checkNever_fix|]. intros r -> _. exact Hnull.
Qed.

(** ** The comment loop of the split fixer *)








(** ** Fixer closures and the analyzer state *)

Lemma stateless_ret {A} (x : A) : stateless (ret x).
Proof. right. now exists x. Qed.

Lemma stateless_throw {A} : stateless (@throw A).
Proof. now left. Qed.

Lemma stateless_deref {A} (o : option A) : stateless (deref o).
Proof. destruct o; [apply stateless_ret|apply stateless_throw]. Qed.

Lemma stateless_bind {A B} (m : M A) (k : A -> M B) :
  stateless m -> (forall x, stateless (k x)) -> stateless (bind m k).
Proof.
  intros [Hm|[x Hm]] Hk.
  - left. intros st. unfold bind. now rewrite Hm.
  - destruct (Hk x) as [Hx|[y Hy]].
    + left. intros st. unfold bind. now rewrite Hm.
    + right. exists y. intros st. unfold bind. now rewrite Hm.
Qed.

Lemma stateless_mapM {A B} (f : A -> M B) (l : list A) :
  (forall x, stateless (f x)) -> stateless (mapM f l).
Proof.
  intros Hf. induction l as [|x l IH]; simpl; [apply stateless_ret|].
  apply stateless_bind; [apply Hf|]. intros y.
  apply stateless_bind; [exact IH|]. intros ys. apply stateless_ret.
Qed.

Lemma stateless_skipComments sourceCode fuel lastComment :
  stateless (skipComments sourceCode fuel lastComment).
Proof.
  revert lastComment. induction fuel as [|fuel IH]; intros lastComment; simpl;
    destruct (isCommentToken lastComment);
    auto using stateless_ret, stateless_throw, stateless_bind, stateless_deref.
Qed.

Lemma stateless_runJoinFix sourceCode declaration previousNode :
  stateless (runJoinFix sourceCode declaration previousNode).
Proof.
  unfold runJoinFix. apply stateless_bind; [apply stateless_deref|].
  intros type. destruct previousNode as [[previous|]|];
    try apply stateless_ret.
  case_match; [|apply stateless_ret].
  apply stateless_bind; [apply stateless_deref|]. intros. apply stateless_ret.
Qed.

Lemma stateless_splitDeclarator sourceCode node declarator :
  stateless (splitDeclarator sourceCode node declarator).
Proof.
  unfold splitDeclarator.
  destruct (getTokenAfter sourceCode (snd (d_range declarator)) false);
    [|apply stateless_ret].
  case_match; [apply stateless_ret|].
  apply stateless_bind; [apply stateless_deref|]. intros afterComma.
  repeat case_match; try apply stateless_ret;
    (apply stateless_bind; [apply stateless_skipComments|]);
    intros; apply stateless_ret.
Qed.

(** C9: evaluating a join or split fixer closure leaves both stacks, the
    whole analyzer state, as they were, and its outcome does not depend
    on that state: over an unchanged source it throws on every
    evaluation or returns the same list of edits on every evaluation. *)
Theorem runFix_stateless sourceCode f :
  (forall st, runFix sourceCode f st = None)
  \/ (exists edits, forall st, runFix sourceCode f st = Some (edits, st)).
Proof.
  change (stateless (runFix sourceCode f)).
  destruct f as [declaration previousNode|node]; simpl.
  - apply stateless_runJoinFix.
  - unfold runSplitFix. apply stateless_bind.
    + apply stateless_mapM. intros. apply stateless_splitDeclarator.
    + intros. apply stateless_ret.
Qed.

(** ** Scope stacks along a traversal *)

Lemma alter_last_snoc {A} (f : A -> A) (l : list A) (x : A) :
  alter_last f (l ++ [x]) = l ++ [f x].
Proof.
  unfold alter_last. rewrite length_app. simpl.
  replace (length l + 1 - 1) with (length l + 0) by lia.
  now rewrite alter_app_r.
Qed.

Lemma pop_snoc {A} (l : list A) (x : A) : pop (l ++ [x]) = l.
Proof. apply removelast_last. Qed.

Lemma traverse_cons options SLP e events st :
  traverse options SLP (e :: events) st
  = match visit options SLP e st with
    | Some (reports, st1) =>
        match traverse options SLP events st1 with
        | Some (reports', st2) => Some (reports ++ reports', st2)
        | None => None
        end
    | None => None
    end.
Proof. reflexivity. Qed.

Lemma traverse_app options SLP events events' st :
  traverse options SLP (events ++ events') st
  = match traverse options SLP events st with
    | Some (reports, st1) =>
        match traverse options SLP events' st1 with
        | Some (reports', st2) => Some (reports ++ reports', st2)
        | None => None
        end
    | None => None
    end.
Proof.
  revert st. induction events as [|e events IH]; intros st; simpl.
  - unfold ret. destruct (traverse options SLP events' st) as [[? ?]|]; reflexivity.
  - unfold bind, ret.
    destruct (visit options SLP e st) as [[r st1]|]; [|reflexivity].
    rewrite IH.
    destruct (traverse options SLP events st1) as [[r1 st2]|]; [|reflexivity].
    destruct (traverse options SLP events' st2) as [[r2 st3]|]; [|reflexivity].
    now rewrite app_assoc.
Qed.

(** A declaration touches the two top records only. *)
Lemma checkVariableDeclaration_tops options SLP node fs f bs b :
  declarations (decl node) <> [] ->
  exists reports f' b',
    checkVariableDeclaration options SLP node (mkAnalyzer (fs ++ [f]) (bs ++ [b]))
    = Some (reports, mkAnalyzer (fs ++ [f']) (bs ++ [b'])).
Proof.
  intros Hds.
  destruct (checkVariableDeclaration_total options SLP node
              (mkAnalyzer (fs ++ [f]) (bs ++ [b])) Hds) as (reports & st' & Hrun);
    [simpl; intros E; now apply app_eq_nil in E..|].
  exists reports. rewrite Hrun. pose proof Hrun as Hinv.
  apply checkVariableDeclaration_inv in Hinv.
  destruct Hinv as [(_ & _ & ->)|(consecutive & always & returned & Hko & _ & Ha & _)];
    [eauto|].
  apply checkAlways_inv in Ha. destruct Ha as (only & Honly & _).
  assert (Hsc : is_Some (getCurrentScope (kind (decl node))
                           (mkAnalyzer (fs ++ [f]) (bs ++ [b])))).
  { destruct Hko as [ko Hko]. destruct (kind (decl node)); simpl in *;
      try discriminate; rewrite last_snoc; simpl; eauto. }
  destruct Hsc as [sc Hsc].
  destruct (hasOnlyOneStatement_result options _ (declarations (decl node)) _ _ Hsc)
    as [only' Hres].
  rewrite Hres in Honly. inversion Honly; subst. clear Honly.
  destruct only; [|eauto].
  destruct (kind (decl node)); simpl; rewrite ?alter_last_snoc; eauto.
Qed.

Lemma visit_Enter options SLP type st :
  visit options SLP (Enter type) st
  = Some ([],
          mkAnalyzer
            (if is_in type functionTypes
             then functionStack st ++ [fresh_scope] else functionStack st)
            (if is_in type functionTypes || is_in type blockTypes
             then blockStack st ++ [mkBlock fresh_scope fresh_scope]
             else blockStack st)).
Proof.
  unfold visit. destruct (is_in type functionTypes); [reflexivity|].
  destruct (is_in type blockTypes); [reflexivity|]. now destruct st.
Qed.

Lemma visit_Exit options SLP type st :
  visit options SLP (Exit type) st
  = Some ([],
          mkAnalyzer
            (if is_in type functionTypes
             then pop (functionStack st) else functionStack st)
            (if is_in type functionTypes || is_in type blockTypes
             then pop (blockStack st) else blockStack st)).
Proof.
  unfold visit. destruct (is_in type functionTypes); [reflexivity|].
  destruct (is_in type blockTypes); [reflexivity|]. now destruct st.
Qed.

Lemma forallb_node {p : Event -> bool} type inner events :
  p (Enter type) = true -> p (Exit type) = true ->
  forallb p (Enter type :: inner ++ Exit type :: events) = true ->
  forallb p inner = true /\ forallb p events = true.
Proof.
  intros He Hx. simpl. rewrite He, forallb_app. simpl. rewrite Hx. simpl.
  intros H. now apply andb_prop in H.
Qed.

(** A balanced sequence leaves both stacks at their depth and touches
    the two top records only; without declarations it touches nothing. *)
Lemma traverse_balanced options SLP events :
  balanced events ->
  forallb has_declarators events = true ->
  forall fs f bs b,
  exists reports f' b',
    traverse options SLP events (mkAnalyzer (fs ++ [f]) (bs ++ [b]))
    = Some (reports, mkAnalyzer (fs ++ [f']) (bs ++ [b']))
    /\ (forallb is_enter_exit events = true -> reports = [] /\ f' = f /\ b' = b).
Proof.
  induction 1 as [|node events _ IH|type inner events _ IHinner _ IHevents];
    intros Hwf fs f bs b.
  - exists [], f, b. split; [reflexivity|auto].
  - simpl in Hwf. apply andb_prop in Hwf. destruct Hwf as [Hnode Hwf].
    assert (Hds : declarations (decl node) <> []).
    { intros E. rewrite E in Hnode. discriminate. }
    destruct (checkVariableDeclaration_tops options SLP node fs f bs b Hds)
      as (r1 & f1 & b1 & H1).
    destruct (IH Hwf fs f1 bs b1) as (r2 & f2 & b2 & H2 & _).
    exists (r1 ++ r2), f2, b2. split; [|discriminate].
    simpl. unfold bind, ret. now rewrite H1, H2.
  - apply forallb_node in Hwf; [|reflexivity..]. destruct Hwf as [Hinner Hevents].
    rewrite traverse_cons, visit_Enter, traverse_app.
    cbn [functionStack blockStack].
    destruct (is_in type functionTypes) eqn:Ef;
      [|destruct (is_in type blockTypes) eqn:Eb]; cbn [orb].
    + destruct (IHinner Hinner (fs ++ [f]) fresh_scope (bs ++ [b])
                  (mkBlock fresh_scope fresh_scope))
        as (r1 & f1 & b1 & H1 & E1).
      rewrite H1, traverse_cons, visit_Exit, Ef.
      cbn [functionStack blockStack orb]. rewrite !pop_snoc.
      destruct (IHevents Hevents fs f bs b) as (r2 & f2 & b2 & H2 & E2).
      rewrite H2. eexists _, f2, b2. split; [reflexivity|].
      intros Hee. apply forallb_node in Hee; [|reflexivity..].
      destruct Hee as [Hee1 Hee2]. destruct (E1 Hee1) as (-> & _).
      destruct (E2 Hee2) as (-> & -> & ->). auto.
    + destruct (IHinner Hinner fs f (bs ++ [b]) (mkBlock fresh_scope fresh_scope))
        as (r1 & f1 & b1 & H1 & E1).
      rewrite H1, traverse_cons, visit_Exit, Ef, Eb.
      cbn [functionStack blockStack orb]. rewrite !pop_snoc.
      destruct (IHevents Hevents fs f1 bs b) as (r2 & f2 & b2 & H2 & E2).
      rewrite H2. eexists _, f2, b2. split; [reflexivity|].
      intros Hee. apply forallb_node in Hee; [|reflexivity..].
      destruct Hee as [Hee1 Hee2]. destruct (E1 Hee1) as (-> & -> & _).
      destruct (E2 Hee2) as (-> & -> & ->). auto.
    + destruct (IHinner Hinner fs f bs b) as (r1 & f1 & b1 & H1 & E1).
      rewrite H1, traverse_cons, visit_Exit, Ef, Eb.
      cbn [functionStack blockStack orb].
      destruct (IHevents Hevents fs f1 bs b1) as (r2 & f2 & b2 & H2 & E2).
      rewrite H2. eexists _, f2, b2. split; [reflexivity|].
      intros Hee. apply forallb_node in Hee; [|reflexivity..].
      destruct Hee as [Hee1 Hee2]. destruct (E1 Hee1) as (-> & -> & ->).
      destruct (E2 Hee2) as (-> & -> & ->). auto.
Qed.

Lemma visit_Enter_tops options SLP type fs f bs b :
  exists fs1 f1 bs1 b1,
    visit options SLP (Enter type) (mkAnalyzer (fs ++ [f]) (bs ++ [b]))
    = Some ([], mkAnalyzer (fs1 ++ [f1]) (bs1 ++ [b1])).
Proof.
  rewrite visit_Enter. cbn [functionStack blockStack].
  destruct (is_in type functionTypes); [|destruct (is_in type blockTypes)];
    cbn [orb]; eauto 6.
Qed.

(** At every point of a balanced sequence both stacks have a top. *)
Lemma traverse_prefix options SLP events :
  balanced events ->
  forallb has_declarators events = true ->
  forall pre post, events = pre ++ post ->
  forall fs f bs b,
  exists reports fs' f' bs' b',
    traverse options SLP pre (mkAnalyzer (fs ++ [f]) (bs ++ [b]))
    = Some (reports, mkAnalyzer (fs' ++ [f']) (bs' ++ [b'])).
Proof.
  induction 1 as [|node events _ IH|type inner events Binner IHinner _ IHevents];
    intros Hwf pre post Hsplit fs f bs b.
  - symmetry in Hsplit. apply app_eq_nil in Hsplit. destruct Hsplit as [-> _].
    simpl. unfold ret. eauto 8.
  - destruct pre as [|e pre]; [simpl; unfold ret; eauto 8|].
    simpl in Hsplit. inversion Hsplit; subst e events. clear Hsplit.
    simpl in Hwf. apply andb_prop in Hwf. destruct Hwf as [Hnode Hwf].
    assert (Hds : declarations (decl node) <> []).
    { intros E. rewrite E in Hnode. discriminate. }
    destruct (checkVariableDeclaration_tops options SLP node fs f bs b Hds)
      as (r1 & f1 & b1 & H1).
    destruct (IH Hwf pre post eq_refl fs f1 bs b1)
      as (r2 & fs2 & f2 & bs2 & b2 & H2).
    rewrite traverse_cons. simpl. rewrite H1, H2. eauto 8.
  - destruct pre as [|e pre]; [simpl; unfold ret; eauto 8|].
    simpl in Hsplit. inversion Hsplit as [[He Hrest]]. subst e. clear Hsplit.
    pose proof Hwf as Hboth.
    apply forallb_node in Hboth; [|reflexivity..]. destruct Hboth as [Hinner Hevents].
    apply app_eq_app in Hrest.
    destruct Hrest as [l [[Hi Hp]|[Hp Hx]]].
    + (* the point lies inside the node *)
      destruct (visit_Enter_tops options SLP type fs f bs b)
        as (fs1 & f1 & bs1 & b1 & H1).
      destruct (IHinner Hinner pre l Hi fs1 f1 bs1 b1)
        as (r2 & fs2 & f2 & bs2 & b2 & H2).
      rewrite traverse_cons, H1, H2. eauto 8.
    + destruct l as [|x l].
      * (* the point is the end of the node's children *)
        rewrite app_nil_r in Hp. subst pre.
        destruct (visit_Enter_tops options SLP type fs f bs b)
          as (fs1 & f1 & bs1 & b1 & H1).
        destruct (IHinner Hinner inner [] (eq_sym (app_nil_r inner)) fs1 f1 bs1 b1)
          as (r2 & fs2 & f2 & bs2 & b2 & H2).
        rewrite traverse_cons, H1, H2. eauto 8.
      * (* the point lies after the node *)
        simpl in Hx. inversion Hx as [[Hexit Hev]]. subst x pre.
        assert (Bnode : balanced (Enter type :: inner ++ Exit type :: []))
          by (apply balanced_node; [assumption|constructor]).
        assert (Wnode : forallb has_declarators
                          (Enter type :: inner ++ Exit type :: []) = true).
        { simpl. rewrite forallb_app, Hinner. reflexivity. }
        destruct (traverse_balanced options SLP _ Bnode Wnode fs f bs b)
          as (r1 & f1 & b1 & H1 & _).
        destruct (IHevents Hevents l post Hev fs f1 bs b1)
          as (r2 & fs2 & f2 & bs2 & b2 & H2).
        replace (Enter type :: (inner ++ Exit type :: l))
          with ((Enter type :: inner ++ Exit type :: []) ++ l)
          by (simpl; now rewrite <- app_assoc).
        rewrite traverse_app, H1, H2. eauto 8.
Qed.

(** A balanced sequence of enter and exit events restores the state it
    started from, whatever that state is. *)
Lemma traverse_enter_exit options SLP events :
  balanced events ->
  forallb is_enter_exit events = true ->
  forall st, traverse options SLP events st = Some ([], st).
Proof.
  induction 1 as [|node events _ IH|type inner events _ IHinner _ IHevents];
    intros Hee st; [reflexivity|discriminate|].
  apply forallb_node in Hee; [|reflexivity..]. destruct Hee as [Hinner Hevents].
  rewrite traverse_cons, visit_Enter, traverse_app, IHinner by assumption.
  rewrite traverse_cons, visit_Exit, IHevents by assumption.
  cbn [functionStack blockStack].
  destruct (is_in type functionTypes); [|destruct (is_in type blockTypes)];
    cbn [orb app]; rewrite ?pop_snoc; now destruct st.
Qed.

(** C8: [startFunction] pushes one fresh function record and one fresh
    block record, [startBlock] one fresh block record, and the exits pop
    the last record pushed.  A balanced sequence of enter and exit
    events restores both stacks; so does a function node around any
    balanced sequence of events, declarations included.  At every point
    inside a function node both stacks have a top record, and the kind
    of a declaration selects the stack whose top is its current scope. *)
Theorem scope_stacks_lifo options SLP body pre post st :
  balanced body ->
  forallb has_declarators body = true ->
  body = pre ++ post ->
  startFunction st
  = Some (tt, mkAnalyzer (functionStack st ++ [fresh_scope])
                (blockStack st ++ [mkBlock fresh_scope fresh_scope]))
  /\ startBlock st
     = Some (tt, mkAnalyzer (functionStack st)
                   (blockStack st ++ [mkBlock fresh_scope fresh_scope]))
  /\ (forall fs f bs b,
        endFunction (mkAnalyzer (fs ++ [f]) (bs ++ [b])) = Some (tt, mkAnalyzer fs bs))
  /\ (forall fs bs b,
        endBlock (mkAnalyzer fs (bs ++ [b])) = Some (tt, mkAnalyzer fs bs))
  /\ (forallb is_enter_exit body = true ->
      traverse options SLP body st = Some ([], st))
  /\ (forall type, is_in type functionTypes = true ->
      exists reports,
        traverse options SLP (Enter type :: body ++ [Exit type]) st
        = Some (reports, st))
  /\ (forall type, is_in type functionTypes = true ->
      exists reports st',
        traverse options SLP (Enter type :: pre) st = Some (reports, st')
        /\ is_Some (last (functionStack st'))
        /\ is_Some (last (blockStack st'))
        /\ getCurrentScope Kvar st' = last (functionStack st')
        /\ getCurrentScope Klet st' = block_let <$> last (blockStack st')
        /\ getCurrentScope Kconst st' = block_const <$> last (blockStack st')).
Proof.
  intros Hbal Hwf Hsplit.
  split; [reflexivity|]. split; [reflexivity|].
  split; [intros; unfold endFunction, endBlock; run_monad; now rewrite !pop_snoc|].
  split; [intros; unfold endBlock; run_monad; now rewrite pop_snoc|].
  split; [intros Hee; now apply traverse_enter_exit|].
  split.
  - intros type Hfn.
    destruct (traverse_balanced options SLP body Hbal Hwf
                (functionStack st) fresh_scope (blockStack st)
                (mkBlock fresh_scope fresh_scope)) as (r & f' & b' & Hrun & _).
    rewrite traverse_cons, visit_Enter, Hfn, traverse_app. cbn [orb].
    rewrite Hrun, traverse_cons, visit_Exit, Hfn.
    cbn [functionStack blockStack orb traverse]. rewrite !pop_snoc.
    unfold ret. destruct st. eauto.
  - intros type Hfn.
    destruct (traverse_prefix options SLP body Hbal Hwf pre post Hsplit
                (functionStack st) fresh_scope (blockStack st)
                (mkBlock fresh_scope fresh_scope))
      as (r & fs' & f' & bs' & b' & Hrun).
    rewrite traverse_cons, visit_Enter, Hfn. cbn [orb]. rewrite Hrun.
    eexists _, _. split; [reflexivity|].
    cbn [functionStack blockStack getCurrentScope]. rewrite !last_snoc.
    repeat split; eauto.
Qed.

(** ** The ["never"] scenario *)

(** The tokens are the slices of the text they claim to be. *)
Example twoBare_source_tokens :
  Forall (fun t => getText twoBare_source t = t_value t)
         (tokensAndComments twoBare_source).
Proof. repeat constructor. Qed.

(** C4 (amended): under the uniform mode ["never"], [var a, b;] gets
    exactly one diagnostic, the generic split, and its fix replaces the
    comma by ["; var"], which gives [var a; var b;] on one line. *)
Theorem never_splits_on_one_line SLP :
  "Program" ∈ SLP ->
  traverse (deriveOptions (ConfigString MODE_NEVER)) SLP twoBare_events initial
  = Some ([report twoBare_node split (Some (SplitFix twoBare_node))], initial)
  /\ (forall st,
        runFix twoBare_source (SplitFix twoBare_node) st
        = Some ([mkEdit (5, 6) "; var"], st))
  /\ applyEdits [mkEdit (5, 6) "; var"] (text twoBare_source) = "var a; var b;".
Proof.
  intros Hin.
  assert (Hsplit : splitDeclarations SLP twoBare_node = Some (SplitFix twoBare_node)).
  { unfold splitDeclarations, isInStatementList. cbn [negb].
    change (if String.eqb (p_type (parent twoBare_node)) "ExportNamedDeclaration"
            then p_parent_type (parent twoBare_node)
            else p_type (parent twoBare_node)) with "Program".
    now rewrite bool_decide_eq_true_2. }
  split; [|split].
  - cbv -[splitDeclarations] in Hsplit |- *. now rewrite Hsplit.
  - intros st. vm_compute. reflexivity.
  - vm_compute. reflexivity.
Qed.

(** The scenario with the statement-list parents of the concrete programs. *)
Lemma never_splits_on_one_line_in_program :
  "Program" ∈ statementListParents
  /\ traverse (deriveOptions (ConfigString MODE_NEVER)) statementListParents
       twoBare_events initial
     = Some ([report twoBare_node split (Some (SplitFix twoBare_node))], initial)
  /\ (forall st,
        runFix twoBare_source (SplitFix twoBare_node) st
        = Some ([mkEdit (5, 6) "; var"], st))
  /\ applyEdits [mkEdit (5, 6) "; var"] (text twoBare_source) = "var a; var b;".
Proof.
  assert (Hin : "Program" ∈ statementListParents) by (vm_compute; reflexivity).
  split; [exact Hin|].
  exact (never_splits_on_one_line statementListParents Hin).
Defined.

(** C4 as stated fails: the output of the fix is not the two statements
    on separate lines. *)
Lemma never_split_output_is_not_two_lines :
  exists reports edits,
    traverse (deriveOptions (ConfigString MODE_NEVER)) statementListParents
      twoBare_events initial = Some (reports, initial)
    /\ messageIds reports = [split]
    /\ map report_fix reports = [Some (SplitFix twoBare_node)]
    /\ runFix twoBare_source (SplitFix twoBare_node) initial = Some (edits, initial)
    /\ applyEdits edits (text twoBare_source) = "var a; var b;"
    /\ applyEdits edits (text twoBare_source)
       <> String.append "var a;" (String (Ascii.ascii_of_nat 10) "var b;").
Proof.
  eexists _, _. split; [vm_compute; reflexivity|].
  split; [reflexivity|]. split; [reflexivity|].
  split; [vm_compute; reflexivity|].
  split; [vm_compute; reflexivity|].
  vm_compute. discriminate.
Qed.

(** ** Traversals of the concrete programs *)

Example in_program_reached :
  traverse always statementListParents [Enter "Program"] initial
  = Some ([], in_program).
Proof. reflexivity. Qed.

Example after_firstInitialized_reached :
  traverse always statementListParents
    [Enter "Program"; EnterVariableDeclaration firstInitialized_node] initial
  = Some ([], after_firstInitialized).
Proof. vm_compute. reflexivity. Qed.

Example in_for_in_reached :
  traverse always_uninitialized_never_initialized statementListParents
    [Enter "Program"; EnterVariableDeclaration bareA_node; Enter "ForInStatement"]
    initial
  = Some ([], in_for_in).
Proof. vm_compute. reflexivity. Qed.

(** The whole of [var a; for (var b in x) {}] under
    [{ uninitialized: "always", initialized: "never" }]: no diagnostic. *)
Example for_in_program_silent :
  traverse always_uninitialized_never_initialized statementListParents
    [Enter "Program"; EnterVariableDeclaration bareA_node;
     Enter "ForInStatement"; EnterVariableDeclaration forInLeft_node;
     Enter "BlockStatement"; Exit "BlockStatement";
     Exit "ForInStatement"; Exit "Program"]
    initial
  = Some ([], initial).
Proof. vm_compute. reflexivity. Qed.

(** Under ["always"], the second statement of [var a; var b;] gets the
    generic combine diagnostic; its fix turns the semicolon into a comma
    and removes the second keyword. *)
Example always_joins_two_statements :
  traverse always statementListParents
    [Enter "Program"; EnterVariableDeclaration bareA_node;
     EnterVariableDeclaration bareB_node; Exit "Program"] initial
  = Some ([report bareB_node combine
             (Some (JoinFix (mkDeclarator (11, 12) None)
                      (Some (VariableDeclarationStatement bareA))))],
          initial)
  /\ runFix bareAB_source
       (JoinFix (mkDeclarator (11, 12) None)
          (Some (VariableDeclarationStatement bareA))) initial
     = Some ([mkEdit (5, 6) ","; mkEdit (7, 10) ""], initial)
  /\ applyEdits [mkEdit (5, 6) ","; mkEdit (7, 10) ""] (text bareAB_source)
     = "var a,  b;".
Proof. repeat split; vm_compute; reflexivity. Qed.

(** ** Instances of the theorems on concrete programs *)

(** [var b = require("x"), c = 2;] after [var a = 1;], under ["always"]. *)
Lemma hasOnlyOneStatement_always_flagged_requires :
  mode_is always opt_uninitialized Kvar MODE_ALWAYS = true
  /\ mode_is always opt_initialized Kvar MODE_ALWAYS = true
  /\ getCurrentScope Kvar after_firstInitialized = Some (mkScope true false false)
  /\ uninitialized (mkScope true false false)
     || initialized (mkScope true false false) = true
  /\ hasOnlyOneStatement always Kvar (declarations requireAndNumber)
       after_firstInitialized
     = Some (negb (always_violation (declarations requireAndNumber)
                     (mkScope true false false)),
             if always_violation (declarations requireAndNumber)
                  (mkScope true false false)
             then after_firstInitialized
             else setCurrentScope Kvar
                    (recordTypes always Kvar (declarations requireAndNumber)
                       (mkScope true false false))
                    after_firstInitialized).
Proof.
  split; [reflexivity|]. split; [reflexivity|].
  split; [reflexivity|]. split; [reflexivity|].
  apply (hasOnlyOneStatement_always_flagged always Kvar
           (declarations requireAndNumber) after_firstInitialized
           (mkScope true false false)); reflexivity.
Defined.

(** [var a, b;] as the first statement of a program, under ["always"]. *)
Lemma hasOnlyOneStatement_records_first_statement :
  getCurrentScope Kvar in_program = Some fresh_scope
  /\ (exists only : bool,
        hasOnlyOneStatement always Kvar (declarations twoBare) in_program =
          Some (only,
                if only
                then setCurrentScope Kvar
                       (recordTypes always Kvar (declarations twoBare) fresh_scope)
                       in_program
                else in_program))
  /\ (mode_is always opt_uninitialized Kvar MODE_ALWAYS = true ->
      mode_is always opt_initialized Kvar MODE_ALWAYS = true ->
      fresh_scope = fresh_scope -> declarations twoBare <> [] ->
      let st' := setCurrentScope Kvar
                   (recordTypes always Kvar (declarations twoBare) fresh_scope)
                   in_program in
      hasOnlyOneStatement always Kvar (declarations twoBare) in_program
        = Some (true, st')
      /\ getCurrentScope Kvar st'
         = Some (recordTypes always Kvar (declarations twoBare) fresh_scope)
      /\ recordTypes always Kvar (declarations twoBare) fresh_scope <> fresh_scope
      /\ st' <> in_program).
Proof.
  split; [reflexivity|].
  apply (hasOnlyOneStatement_records_iff_true always Kvar (declarations twoBare)
           in_program fresh_scope).
  reflexivity.
Defined.

(** [var a, b;] in a program, under ["never"]. *)
Lemma never_split_by_priority_twoBare :
  declarations (decl twoBare_node) <> []
  /\ functionStack in_program <> []
  /\ blockStack in_program <> []
  /\ (is_for_in_of_left twoBare_node = true ->
      length (declarations (decl twoBare_node)) = 1)
  /\ exists reports st',
       checkVariableDeclaration never statementListParents twoBare_node in_program
       = Some (reports, st')
       /\ length (List.filter is_split (messageIds reports)) <= 1
       /\ (1 < length (declarations (decl twoBare_node)) ->
           is_for_init twoBare_node = false ->
           List.filter is_split (messageIds reports)
           = split_by_priority never twoBare_node)
       /\ (is_for_init twoBare_node = true ->
           List.filter is_split (messageIds reports) = []).
Proof.
  split; [discriminate|]. split; [discriminate|]. split; [discriminate|].
  split; [discriminate|].
  apply (never_split_by_priority never statementListParents twoBare_node in_program);
    discriminate.
Defined.

(** [if (foo) var x, y;] under ["never"]: a split diagnostic without fix. *)
Lemma splitDeclarations_veto_if_body :
  (enclosing_type ifBody_node ∉ statementListParents)
  /\ checkVariableDeclaration never statementListParents ifBody_node in_program
     = Some ([report ifBody_node split None], in_program)
  /\ splitDeclarations statementListParents ifBody_node = None
  /\ Forall (fun r => is_split (messageId r) = true -> report_fix r = None)
            [report ifBody_node split None].
Proof.
  assert (Hout : enclosing_type ifBody_node ∉ statementListParents).
  { apply (bool_decide_eq_false_1 (enclosing_type ifBody_node ∈ statementListParents)).
    vm_compute. reflexivity. }
  assert (Hrun :
    checkVariableDeclaration never statementListParents ifBody_node in_program
    = Some ([report ifBody_node split None], in_program))
    by (vm_compute; reflexivity).
  split; [exact Hout|]. split; [exact Hrun|].
  exact (splitDeclarations_veto never statementListParents ifBody_node in_program
           _ _ Hout Hrun).
Defined.

(** The program [var a, b; { }], stopped inside the block. *)
Lemma scope_stacks_lifo_in_program :
  balanced declaration_then_block
  /\ forallb has_declarators declaration_then_block = true
  /\ declaration_then_block
     = [EnterVariableDeclaration twoBare_node; Enter "BlockStatement"]
       ++ [Exit "BlockStatement"]
  /\ startFunction initial
     = Some (tt, mkAnalyzer (functionStack initial ++ [fresh_scope])
                   (blockStack initial ++ [mkBlock fresh_scope fresh_scope]))
  /\ startBlock initial
     = Some (tt, mkAnalyzer (functionStack initial)
                   (blockStack initial ++ [mkBlock fresh_scope fresh_scope]))
  /\ (forall fs f bs b,
        endFunction (mkAnalyzer (fs ++ [f]) (bs ++ [b])) = Some (tt, mkAnalyzer fs bs))
  /\ (forall fs bs b,
        endBlock (mkAnalyzer fs (bs ++ [b])) = Some (tt, mkAnalyzer fs bs))
  /\ (forallb is_enter_exit declaration_then_block = true ->
      traverse always statementListParents declaration_then_block initial
      = Some ([], initial))
  /\ (forall type, is_in type functionTypes = true ->
      exists reports,
        traverse always statementListParents
          (Enter type :: declaration_then_block ++ [Exit type]) initial
        = Some (reports, initial))
  /\ (forall type, is_in type functionTypes = true ->
      exists reports st',
        traverse always statementListParents
          (Enter type
           :: [EnterVariableDeclaration twoBare_node; Enter "BlockStatement"])
          initial
        = Some (reports, st')
        /\ is_Some (last (functionStack st'))
        /\ is_Some (last (blockStack st'))
        /\ getCurrentScope Kvar st' = last (functionStack st')
        /\ getCurrentScope Klet st' = block_let <$> last (blockStack st')
        /\ getCurrentScope Kconst st' = block_const <$> last (blockStack st')).
Proof.
  assert (Hbal : balanced declaration_then_block).
  { apply balanced_declaration.
    apply (balanced_node "BlockStatement" [] []); apply balanced_nil. }
  split; [exact Hbal|]. split; [reflexivity|]. split; [reflexivity|].
  exact (scope_stacks_lifo always statementListParents declaration_then_block
           [EnterVariableDeclaration twoBare_node; Enter "BlockStatement"]
           [Exit "BlockStatement"] initial Hbal eq_refl eq_refl).
Defined.

(** [var a; for (var b in x) {}] at the declaration of the loop header. *)
Lemma for_in_of_left_returns_early_for_in :
  is_for_in_of_left forInLeft_node = true
  /\ mode_is always_uninitialized_never_initialized opt_uninitialized
       (kind (decl forInLeft_node)) MODE_ALWAYS = true
  /\ mode_is always_uninitialized_never_initialized opt_initialized
       (kind (decl forInLeft_node)) MODE_ALWAYS = false
  /\ Nat.ltb 0 (count_uninitialized
                  (countDeclarations (declarations (decl forInLeft_node)))) = true
  /\ hasOnlyOneStatement always_uninitialized_never_initialized
       (kind (decl forInLeft_node)) (declarations (decl forInLeft_node)) in_for_in
     = Some (false, in_for_in)
  /\ exists consecutive,
       checkConsecutive always_uninitialized_never_initialized forInLeft_node
         in_for_in = Some (consecutive, in_for_in)
       /\ checkAlways always_uninitialized_never_initialized forInLeft_node
            in_for_in = Some (([], true), in_for_in)
       /\ checkVariableDeclaration always_uninitialized_never_initialized
            statementListParents forInLeft_node in_for_in
          = Some (consecutive, in_for_in)
       /\ (combineUninitialized ∉ messageIds consecutive)
       /\ List.filter is_split (messageIds consecutive) = [].
Proof.
  split; [reflexivity|]. split; [reflexivity|]. split; [reflexivity|].
  split; [reflexivity|]. split; [reflexivity|].
  apply (for_in_of_left_returns_early always_uninitialized_never_initialized
           statementListParents forInLeft_node in_for_in in_for_in);
    reflexivity.
Defined.

(** * Further properties of the [one-var] rule *)

Lemma recordType_merge options type sc d :
  recordType options type sc d = merge sc (recordType options type fresh_scope d).
Proof.
  unfold recordType, merge. destruct sc as [i u r].
  destruct (init d); repeat case_match; simpl;
    rewrite ?orb_false_r, ?orb_true_r; reflexivity.
Qed.

Lemma merge_assoc a b c : merge (merge a b) c = merge a (merge b c).
Proof. unfold merge. simpl. now rewrite !orb_assoc. Qed.

Lemma merge_fresh_l a : merge fresh_scope a = a.
Proof. now destruct a. Qed.

Lemma recordTypes_merge options type ds sc :
  recordTypes options type ds sc = merge sc (contribution options type ds).
Proof.
  unfold contribution, recordTypes. revert sc.
  induction ds as [|d ds IH]; intros sc; simpl.
  - destruct sc as [i u r]. unfold merge. simpl. now rewrite !orb_false_r.
  - rewrite IH, (IH (recordType options type fresh_scope d)).
    rewrite (recordType_merge options type sc d), merge_assoc. reflexivity.
Qed.

Lemma recordTypes_flags_le options type ds sc :
  flags_le sc (recordTypes options type ds sc).
Proof.
  rewrite recordTypes_merge. unfold flags_le, merge. simpl.
  repeat split; intros ->; reflexivity.
Qed.

(** X1: [recordTypes] only sets flags, and running it a second time on
    the same statement changes nothing. *)
Theorem recordTypes_monotone_idempotent options type ds sc :
  flags_le sc (recordTypes options type ds sc)
  /\ recordTypes options type ds (recordTypes options type ds sc)
     = recordTypes options type ds sc.
Proof.
  split; [apply recordTypes_flags_le|].
  rewrite !recordTypes_merge.
  - unfold merge. simpl. destruct sc as [i u r], (contribution options type ds) as [i' u' r'].
    simpl. f_equal; destruct i, i', u, u', r, r'; reflexivity.
Qed.

(** ** What a check does to the state *)

Lemma hasOnlyOneStatement_inv options type ds st only st' :
  hasOnlyOneStatement options type ds st = Some (only, st') ->
  exists sc,
    getCurrentScope type st = Some sc
    /\ st' = if only
             then setCurrentScope type (recordTypes options type ds sc) st
             else st.
Proof.
  intros H. destruct (getCurrentScope type st) as [sc|] eqn:Hsc.
  - exists sc. split; [reflexivity|].
    destruct (hasOnlyOneStatement_result options type ds st sc Hsc) as [only' H'].
    rewrite H' in H. now inversion H.
  - unfold hasOnlyOneStatement, bind, get_state, deref, throw in H.
    rewrite Hsc in H. discriminate.
Qed.

Lemma checkVariableDeclaration_state options SLP node st reports st' :
  checkVariableDeclaration options SLP node st = Some (reports, st') ->
  st' = st
  \/ exists sc,
       getCurrentScope (kind (decl node)) st = Some sc
       /\ st' = setCurrentScope (kind (decl node))
                  (recordTypes options (kind (decl node))
                     (declarations (decl node)) sc) st.
Proof.
  intros Hrun. apply checkVariableDeclaration_inv in Hrun.
  destruct Hrun as [(_ & _ & ->)|(consecutive & always & returned & _ & _ & Ha & _)];
    [now left|].
  apply checkAlways_inv in Ha. destruct Ha as (only & Honly & _).
  apply hasOnlyOneStatement_inv in Honly. destruct Honly as (sc & Hsc & ->).
  destruct only; [right; eauto|now left].
Qed.

Lemma alter_last_id {A} (f : A -> A) (l : list A) x :
  last l = Some x -> f x = x -> alter_last f l = l.
Proof.
  intros Hl Hf. apply last_Some in Hl. destruct Hl as [l' ->].
  now rewrite alter_last_snoc, Hf.
Qed.

Lemma setCurrentScope_same type sc st :
  getCurrentScope type st = Some sc -> setCurrentScope type sc st = st.
Proof.
  destruct st as [fs bs]. destruct type; simpl; try reflexivity.
  - intros H. now rewrite (alter_last_id _ fs sc).
  - destruct (last bs) as [b|] eqn:Hb; [|discriminate]. simpl. intros [= <-].
    rewrite (alter_last_id _ bs b); [reflexivity|assumption|now destruct b].
  - destruct (last bs) as [b|] eqn:Hb; [|discriminate]. simpl. intros [= <-].
    rewrite (alter_last_id _ bs b); [reflexivity|assumption|now destruct b].
Qed.

Lemma removelast_alter_last {A} (f : A -> A) (l : list A) :
  removelast (alter_last f l) = removelast l.
Proof.
  destruct l as [|x l _] using rev_ind; [reflexivity|].
  now rewrite alter_last_snoc, !removelast_last.
Qed.

(** X2: a check neither pushes nor pops: both stacks keep their depth,
    and every record below the two tops stays as it was. *)
Theorem checkVariableDeclaration_keeps_depth options SLP node st reports st' :
  checkVariableDeclaration options SLP node st = Some (reports, st') ->
  length (functionStack st') = length (functionStack st)
  /\ length (blockStack st') = length (blockStack st)
  /\ removelast (functionStack st') = removelast (functionStack st)
  /\ removelast (blockStack st') = removelast (blockStack st).
Proof.
  intros Hrun. apply checkVariableDeclaration_state in Hrun.
  destruct Hrun as [->|(sc & _ & ->)]; [auto|].
  destruct (kind (decl node)); simpl;
    rewrite ?length_alter_last, ?removelast_alter_last; auto.
Qed.

(** X3: the three kinds are tracked apart: a [var] statement leaves the
    block stack alone, a [let] or [const] statement leaves the function
    stack and the record of the other block kind alone. *)
Theorem checkVariableDeclaration_kinds_apart options SLP node st reports st' :
  checkVariableDeclaration options SLP node st = Some (reports, st') ->
  (kind (decl node) = Kvar -> blockStack st' = blockStack st)
  /\ (kind (decl node) = Klet ->
      functionStack st' = functionStack st
      /\ getCurrentScope Kconst st' = getCurrentScope Kconst st)
  /\ (kind (decl node) = Kconst ->
      functionStack st' = functionStack st
      /\ getCurrentScope Klet st' = getCurrentScope Klet st).
Proof.
  intros Hrun. apply checkVariableDeclaration_state in Hrun.
  destruct Hrun as [->|(sc & _ & ->)]; [auto|].
  destruct (kind (decl node)); (split; [|split]); intros E; try discriminate E;
    simpl; try reflexivity;
    (split; [reflexivity|]); rewrite last_alter_last;
    now destruct (last (blockStack st)).
Qed.

(** X4: a check never clears a flag of the current scope record. *)
Theorem checkVariableDeclaration_flags_grow options SLP node st reports st' sc :
  checkVariableDeclaration options SLP node st = Some (reports, st') ->
  getCurrentScope (kind (decl node)) st = Some sc ->
  exists sc',
    getCurrentScope (kind (decl node)) st' = Some sc' /\ flags_le sc sc'.
Proof.
  intros Hrun Hsc. apply checkVariableDeclaration_state in Hrun.
  destruct Hrun as [->|(sc0 & Hsc0 & ->)].
  - exists sc. split; [assumption|]. unfold flags_le. auto.
  - rewrite Hsc in Hsc0. inversion Hsc0; subst sc0. eexists. split.
    + eapply getCurrentScope_setCurrentScope, Hsc.
    + apply recordTypes_flags_le.
Qed.

Lemma contribution_no_always options type ds :
  mode_is options opt_uninitialized type MODE_ALWAYS = false ->
  mode_is options opt_initialized type MODE_ALWAYS = false ->
  contribution options type ds = fresh_scope.
Proof.
  intros Hu Hi. unfold contribution, recordTypes.
  induction ds as [|d ds IH]; [reflexivity|]. simpl.
  replace (recordType options type fresh_scope d) with fresh_scope; [exact IH|].
  unfold recordType. rewrite Hu, Hi. now destruct (init d).
Qed.

(** X5: scope records are written under ALWAYS modes only: when neither
    mode of the kind is ALWAYS, a check leaves the whole state as it was. *)
Theorem checkVariableDeclaration_writes_only_under_always
    options SLP node st reports st' :
  mode_is options opt_uninitialized (kind (decl node)) MODE_ALWAYS = false ->
  mode_is options opt_initialized (kind (decl node)) MODE_ALWAYS = false ->
  checkVariableDeclaration options SLP node st = Some (reports, st') ->
  st' = st.
Proof.
  intros Hu Hi Hrun. apply checkVariableDeclaration_state in Hrun.
  destruct Hrun as [->|(sc & Hsc & ->)]; [reflexivity|].
  rewrite recordTypes_merge, (contribution_no_always _ _ _ Hu Hi).
  replace (merge sc fresh_scope) with sc
    by (destruct sc; unfold merge; simpl; now rewrite !orb_false_r).
  now apply setCurrentScope_same.
Qed.

(** ** Silent parts of the check *)

Lemma mode_is_other options slot type m m' :
  mode_is options slot type m = true -> m <> m' ->
  mode_is options slot type m' = false.
Proof.
  intros H Hne. destruct (mode_is options slot type m') eqn:E; [|reflexivity].
  exfalso. apply Hne. eapply mode_is_inj; eassumption.
Qed.

Lemma previous_exists node :
  (0 <? nodeIndex node)%Z = true ->
  is_Some (array_get (default [] (p_body (parent node))) (nodeIndex node - 1)).
Proof.
  intros Hidx. unfold nodeIndex in *.
  destruct (p_body (parent node)) as [body|]; [|lia].
  destruct (Nat.ltb 0 (length body)); [|lia]. simpl.
  pose proof (findIndex_bounds
                (fun s => statement_id s =? nid (decl node))%nat body) as B.
  unfold array_get. destruct (_ <? 0)%Z eqn:En; [lia|].
  apply lookup_lt_is_Some. lia.
Qed.

Lemma checkConsecutive_silent options node st :
  mode_is options opt_initialized (kind (decl node)) MODE_CONSECUTIVE = false ->
  mode_is options opt_uninitialized (kind (decl node)) MODE_CONSECUTIVE = false ->
  checkConsecutive options node st = Some ([], st).
Proof.
  intros Hi Hu. unfold checkConsecutive. rewrite Hi, Hu.
  destruct (0 <? nodeIndex node)%Z eqn:Hidx; [|reflexivity].
  destruct (previous_exists node Hidx) as [previousNode ->].
  unfold bind, deref, ret. simpl.
  destruct previousNode; [|reflexivity]. now destruct (_ && _).
Qed.

Lemma checkAlways_silent options node st sc :
  mode_is options opt_initialized (kind (decl node)) MODE_ALWAYS = false ->
  mode_is options opt_uninitialized (kind (decl node)) MODE_ALWAYS = false ->
  getCurrentScope (kind (decl node)) st = Some sc ->
  checkAlways options node st = Some (([], false), st).
Proof.
  intros Hi Hu Hsc. unfold checkAlways, bind.
  destruct (hasOnlyOneStatement_result options _ (declarations (decl node)) _ _ Hsc)
    as [only Honly].
  rewrite Honly, Hi, Hu. simpl.
  assert (Hst : (if only
                 then setCurrentScope (kind (decl node))
                        (recordTypes options (kind (decl node))
                           (declarations (decl node)) sc) st
                 else st) = st).
  { destruct only; [|reflexivity].
    rewrite recordTypes_merge, (contribution_no_always _ _ _ Hu Hi).
    replace (merge sc fresh_scope) with sc
      by (destruct sc; unfold merge; simpl; now rewrite !orb_false_r).
    now apply setCurrentScope_same. }
  rewrite Hst. now destruct only.
Qed.

Lemma checkNever_silent options SLP node :
  mode_is options opt_initialized (kind (decl node)) MODE_NEVER = false ->
  mode_is options opt_uninitialized (kind (decl node)) MODE_NEVER = false ->
  checkNever options SLP node = [].
Proof. intros Hi Hu. unfold checkNever. rewrite Hi, Hu. now repeat case_match. Qed.

Lemma checkMixedRequires_silent options node :
  mode_is options opt_initialized (kind (decl node)) MODE_ALWAYS
  && separateRequires options
  && mixedRequires (declarations (decl node)) = false ->
  checkMixedRequires options node = [].
Proof. intros H. unfold checkMixedRequires. now rewrite H. Qed.

Lemma checkVariableDeclaration_run options SLP node st consecutive always returned st' :
  is_Some (options_get options (kind (decl node))) ->
  checkConsecutive options node st = Some (consecutive, st) ->
  checkAlways options node st = Some ((always, returned), st') ->
  checkVariableDeclaration options SLP node st
  = Some (checkMixedRequires options node ++ consecutive ++ always
          ++ (if returned then [] else checkNever options SLP node), st').
Proof.
  intros [ko Hko] Hc Ha. unfold checkVariableDeclaration, bind, ret.
  rewrite Hko, Hc, Ha. simpl. destruct returned; now rewrite ?app_nil_r.
Qed.

Lemma mode_is_configured options slot type m :
  mode_is options slot type m = true -> is_Some (options_get options type).
Proof. unfold mode_is. destruct (options_get options type); [eauto|discriminate]. Qed.

(** X6: under the mode NEVER for both buckets of its kind, a statement
    gets the generic split diagnostic exactly when it has more than one
    declarator and is not the init clause of a [for] statement; it gets
    nothing else, and the state stays as it was. *)
Theorem never_mode_reports options SLP node st sc :
  mode_is options opt_initialized (kind (decl node)) MODE_NEVER = true ->
  mode_is options opt_uninitialized (kind (decl node)) MODE_NEVER = true ->
  getCurrentScope (kind (decl node)) st = Some sc ->
  exists reports,
    checkVariableDeclaration options SLP node st = Some (reports, st)
    /\ messageIds reports
       = if negb (is_for_init node) && Nat.ltb 1 (length (declarations (decl node)))
         then [split] else [].
Proof.
  intros Hi Hu Hsc.
  pose proof (mode_is_other _ _ _ _ MODE_ALWAYS Hi ltac:(discriminate)) as HiA.
  pose proof (mode_is_other _ _ _ _ MODE_ALWAYS Hu ltac:(discriminate)) as HuA.
  pose proof (mode_is_other _ _ _ _ MODE_CONSECUTIVE Hi ltac:(discriminate)) as HiC.
  pose proof (mode_is_other _ _ _ _ MODE_CONSECUTIVE Hu ltac:(discriminate)) as HuC.
  eexists. split.
  - apply checkVariableDeclaration_run;
      [now apply mode_is_configured in Hi
      |now apply checkConsecutive_silent
      |now apply (checkAlways_silent _ _ _ sc)].
  - rewrite checkMixedRequires_silent by now rewrite HiA.
    simpl. fold (messageIds (checkNever options SLP node)).
    rewrite checkNever_messageIds. unfold split_by_priority. rewrite Hi, Hu. simpl.
    destruct (is_for_init node); simpl; [reflexivity|]. now case_match.
Qed.

(** ** The uniform mode CONSECUTIVE *)

Lemma checkConsecutive_both options node st :
  mode_is options opt_initialized (kind (decl node)) MODE_CONSECUTIVE = true ->
  mode_is options opt_uninitialized (kind (decl node)) MODE_CONSECUTIVE = true ->
  declarations (decl node) <> [] ->
  exists reports,
    checkConsecutive options node st = Some (reports, st)
    /\ messageIds reports = if joinable node then [combine] else [].
Proof.
  intros Hi Hu Hds. unfold checkConsecutive, joinable, previous_sibling.
  rewrite Hi, Hu.
  destruct (0 <? nodeIndex node)%Z eqn:Hidx; [|unfold ret; eauto].
  destruct (previous_exists node Hidx) as [previousNode ->].
  unfold bind, deref, ret. simpl.
  destruct previousNode as [previous|]; [|eauto].
  destruct (_ && _); [|eauto].
  destruct (joinDeclarations_total node st Hds) as [f ->]. eauto.
Qed.

(** X7: under the mode CONSECUTIVE for both buckets of its kind, a
    statement gets the generic combine diagnostic exactly when the
    statement just before it in the same body is a declaration of the
    same kind and the two together do not mix requires with other
    declarators; it gets nothing else, and the state stays as it was. *)
Theorem consecutive_mode_reports options SLP node st sc :
  mode_is options opt_initialized (kind (decl node)) MODE_CONSECUTIVE = true ->
  mode_is options opt_uninitialized (kind (decl node)) MODE_CONSECUTIVE = true ->
  declarations (decl node) <> [] ->
  getCurrentScope (kind (decl node)) st = Some sc ->
  exists reports,
    checkVariableDeclaration options SLP node st = Some (reports, st)
    /\ messageIds reports = if joinable node then [combine] else [].
Proof.
  intros Hi Hu Hds Hsc.
  pose proof (mode_is_other _ _ _ _ MODE_ALWAYS Hi ltac:(discriminate)) as HiA.
  pose proof (mode_is_other _ _ _ _ MODE_ALWAYS Hu ltac:(discriminate)) as HuA.
  pose proof (mode_is_other _ _ _ _ MODE_NEVER Hi ltac:(discriminate)) as HiN.
  pose proof (mode_is_other _ _ _ _ MODE_NEVER Hu ltac:(discriminate)) as HuN.
  destruct (checkConsecutive_both options node st Hi Hu Hds) as (consecutive & Hc & Hids).
  eexists. split.
  - apply checkVariableDeclaration_run;
      [now apply mode_is_configured in Hi
      |exact Hc
      |now apply (checkAlways_silent _ _ _ sc)].
  - rewrite checkMixedRequires_silent by now rewrite HiA.
    rewrite checkNever_silent by assumption.
    simpl. now rewrite app_nil_r.
Qed.

(** X8: the first statement of a body, and a statement whose parent has
    no body array, gets nothing from the consecutive check, whatever
    the options. *)
Theorem checkConsecutive_first_statement options node st :
  match p_body (parent node) with
  | Some (first :: _) => statement_id first = nid (decl node)
  | Some [] => True
  | None => True
  end ->
  checkConsecutive options node st = Some ([], st).
Proof.
  intros Hfirst. unfold checkConsecutive.
  replace (nodeIndex node) with 0%Z; [reflexivity|].
  unfold nodeIndex. destruct (p_body (parent node)) as [[|first rest]|];
    try reflexivity.
  simpl. rewrite Hfirst, Nat.eqb_refl. reflexivity.
Qed.

(** ** The uniform mode ALWAYS *)

Lemma existsb_false_forall {A} (p : A -> bool) l :
  existsb p l = false -> forall x, In x l -> p x = false.
Proof.
  induction l as [|y l IH]; simpl; [tauto|].
  intros H x [->|Hin]; apply orb_false_elim in H; destruct H; auto.
Qed.

Lemma isRequire_init d : isRequire d = true -> init d <> None.
Proof. unfold isRequire. destruct (init d); [discriminate|discriminate]. Qed.

(** Without requires, a statement under ALWAYS/ALWAYS sets the
    initialized or the uninitialized flag and leaves [required] alone. *)
Lemma recordTypes_no_requires options type ds sc :
  mode_is options opt_uninitialized type MODE_ALWAYS = true ->
  mode_is options opt_initialized type MODE_ALWAYS = true ->
  existsb isRequire ds = false ->
  ds <> [] ->
  let sc' := recordTypes options type ds sc in
  uninitialized sc' || initialized sc' = true /\ required sc' = required sc.
Proof.
  intros Hu Hi Hreq Hds. simpl.
  assert (Hstep : forall d sc0, isRequire d = false ->
            let sc1 := recordType options type sc0 d in
            uninitialized sc1 || initialized sc1 = true
            /\ required sc1 = required sc0).
  { intros d sc0 Hd. unfold recordType. rewrite Hu, Hi, Hd, andb_false_r.
    destruct (init d); simpl; rewrite ?orb_true_r; auto. }
  assert (Hkeep : forall ds0 sc0,
            (forall d, In d ds0 -> isRequire d = false) ->
            uninitialized sc0 || initialized sc0 = true ->
            let sc1 := recordTypes options type ds0 sc0 in
            uninitialized sc1 || initialized sc1 = true
            /\ required sc1 = required sc0).
  { induction ds0 as [|d ds0 IH]; intros sc0 Hall Hflag; simpl; [auto|].
    destruct (Hstep d sc0 (Hall d (or_introl eq_refl))) as [F R].
    destruct (IH (recordType options type sc0 d)
                (fun x Hx => Hall x (or_intror Hx)) F) as [F' R'].
    unfold recordTypes in *. simpl. split; [exact F'|congruence]. }
  pose proof (existsb_false_forall _ _ Hreq) as Hall.
  destruct ds as [|d ds]; [congruence|].
  destruct (Hstep d sc (Hall d (or_introl eq_refl))) as [F R].
  destruct (Hkeep ds (recordType options type sc d)
              (fun x Hx => Hall x (or_intror Hx)) F) as [F' R'].
  unfold recordTypes in *. simpl. split; [exact F'|congruence].
Qed.

Lemma always_statement options SLP node st sc :
  mode_is options opt_uninitialized (kind (decl node)) MODE_ALWAYS = true ->
  mode_is options opt_initialized (kind (decl node)) MODE_ALWAYS = true ->
  existsb isRequire (declarations (decl node)) = false ->
  declarations (decl node) <> [] ->
  getCurrentScope (kind (decl node)) st = Some sc ->
  exists reports st' sc',
    checkVariableDeclaration options SLP node st = Some (reports, st')
    /\ messageIds reports
       = (if uninitialized sc || initialized sc then [combine] else [])
    /\ getCurrentScope (kind (decl node)) st' = Some sc'
    /\ uninitialized sc' || initialized sc' = true.
Proof.
  intros Hu Hi Hreq Hds Hsc.
  pose proof (mode_is_other _ _ _ _ MODE_CONSECUTIVE Hi ltac:(discriminate)) as HiC.
  pose proof (mode_is_other _ _ _ _ MODE_CONSECUTIVE Hu ltac:(discriminate)) as HuC.
  pose proof (mode_is_other _ _ _ _ MODE_NEVER Hi ltac:(discriminate)) as HiN.
  pose proof (mode_is_other _ _ _ _ MODE_NEVER Hu ltac:(discriminate)) as HuN.
  assert (Hmixed : checkMixedRequires options node = []).
  { apply checkMixedRequires_silent. unfold mixedRequires. rewrite Hreq.
    now rewrite andb_false_r. }
  destruct (joinDeclarations_total node st Hds) as [f Hf].
  destruct (uninitialized sc || initialized sc) eqn:Hflag.
  - (* a statement is already recorded *)
    assert (Honly : hasOnlyOneStatement options (kind (decl node))
                      (declarations (decl node)) st = Some (false, st)).
    { unfold hasOnlyOneStatement, bind, get_state, deref, ret.
      rewrite Hsc. simpl. now rewrite Hu, Hi, Hflag, Hreq. }
    exists [report node combine (Some f)], st, sc. split; [|auto].
    rewrite (checkVariableDeclaration_run options SLP node st []
               [report node combine (Some f)] false st).
    + rewrite Hmixed, checkNever_silent by assumption. reflexivity.
    + now apply mode_is_configured in Hi.
    + now apply checkConsecutive_silent.
    + unfold checkAlways, bind, ret. rewrite Honly. simpl. rewrite Hi, Hu. simpl.
      now rewrite Hf.
  - (* the first statement of the scope *)
    apply orb_false_elim in Hflag. destruct Hflag as [Hu0 Hi0].
    assert (Honly : hasOnlyOneStatement options (kind (decl node))
                      (declarations (decl node)) st
                    = Some (true,
                            setCurrentScope (kind (decl node))
                              (recordTypes options (kind (decl node))
                                 (declarations (decl node)) sc) st)).
    { unfold hasOnlyOneStatement, bind, get_state, deref, ret, put_state.
      rewrite Hsc. simpl. rewrite Hu0, Hi0, Hreq. simpl.
      now rewrite !andb_false_r. }
    destruct (recordTypes_no_requires options _ _ sc Hu Hi Hreq Hds) as [F _].
    exists [], (setCurrentScope (kind (decl node))
                  (recordTypes options (kind (decl node))
                     (declarations (decl node)) sc) st),
      (recordTypes options (kind (decl node)) (declarations (decl node)) sc).
    split; [|split; [reflexivity|split]].
    + rewrite (checkVariableDeclaration_run options SLP node st [] [] false
                 (setCurrentScope (kind (decl node))
                    (recordTypes options (kind (decl node))
                       (declarations (decl node)) sc) st)).
      * rewrite Hmixed, checkNever_silent by assumption. reflexivity.
      * now apply mode_is_configured in Hi.
      * now apply checkConsecutive_silent.
      * unfold checkAlways, bind, ret. now rewrite Honly.
    + eapply getCurrentScope_setCurrentScope, Hsc.
    + exact F.
Qed.

(** X9: under the mode ALWAYS for both buckets of a kind, of the
    statements of that kind without requires that are visited in one
    scope, every one but the first gets exactly the generic combine
    diagnostic and the first gets nothing. *)
Theorem always_mode_all_but_first options SLP type nodes st sc :
  mode_is options opt_uninitialized type MODE_ALWAYS = true ->
  mode_is options opt_initialized type MODE_ALWAYS = true ->
  Forall (plain_statement type) nodes ->
  getCurrentScope type st = Some sc ->
  exists reports st',
    traverse options SLP (map EnterVariableDeclaration nodes) st
    = Some (reports, st')
    /\ messageIds reports
       = replicate (if uninitialized sc || initialized sc
                    then length nodes else length nodes - 1) combine.
Proof.
  intros Hu Hi Hall. revert st sc.
  induction Hall as [|node nodes (Hk & Hreq & Hds) _ IH]; intros st sc Hsc.
  - exists [], st. split; [reflexivity|]. now destruct (_ || _).
  - subst type.
    destruct (always_statement options SLP node st sc Hu Hi Hreq Hds Hsc)
      as (r1 & st1 & sc1 & Hrun & Hids & Hsc1 & Hflag1).
    destruct (IH st1 sc1 Hsc1) as (r2 & st2 & Hrun2 & Hids2).
    exists (r1 ++ r2), st2. simpl map. rewrite traverse_cons. simpl visit.
    rewrite Hrun, Hrun2. split; [reflexivity|].
    unfold messageIds in *. rewrite map_app, Hids, Hids2, Hflag1.
    destruct (uninitialized sc || initialized sc); simpl; [reflexivity|].
    now rewrite Nat.sub_0_r.
Qed.

(** ** The require group *)

Lemma forallb_existsb {A} (p : A -> bool) l :
  l <> [] -> forallb p l = true -> existsb p l = true.
Proof. destruct l as [|x l]; [congruence|]. simpl. intros _ H.
  apply andb_prop in H. destruct H as [-> _]. reflexivity. Qed.

Lemma countDeclarations_all_initialized ds :
  (forall d, In d ds -> init d <> None) ->
  count_uninitialized (countDeclarations ds) = 0.
Proof.
  unfold countDeclarations.
  assert (G : forall ds c, (forall d, In d ds -> init d <> None) ->
            count_uninitialized
              (fold_left
                 (fun counts d =>
                    match init d with
                    | None => mkCounts (S (count_uninitialized counts))
                                (count_initialized counts)
                    | Some _ => mkCounts (count_uninitialized counts)
                                  (S (count_initialized counts))
                    end) ds c)
            = count_uninitialized c).
  { clear. induction ds as [|d ds IH]; intros c H; simpl; [reflexivity|].
    rewrite IH by (intros; apply H; now right).
    specialize (H d (or_introl eq_refl)). destruct (init d); [reflexivity|congruence]. }
  intros H. now rewrite G.
Qed.

Lemma recordTypes_all_requires options type ds sc :
  separateRequires options = true ->
  mode_is options opt_initialized type MODE_ALWAYS = true ->
  forallb isRequire ds = true ->
  ds <> [] ->
  recordTypes options type ds sc
  = mkScope (initialized sc) (uninitialized sc) true.
Proof.
  intros Hsep Hi Hall Hds.
  assert (Hstep : forall d sc0, isRequire d = true ->
            recordType options type sc0 d
            = mkScope (initialized sc0) (uninitialized sc0) true).
  { intros d sc0 Hd. unfold recordType. rewrite Hi, Hsep, Hd.
    apply isRequire_init in Hd. now destruct (init d). }
  assert (Hkeep : forall ds0 i u, forallb isRequire ds0 = true ->
            recordTypes options type ds0 (mkScope i u true) = mkScope i u true).
  { induction ds0 as [|d ds0 IH]; intros i u H; [reflexivity|].
    simpl in H. apply andb_prop in H. destruct H as [Hd H].
    unfold recordTypes in *. simpl. rewrite (Hstep d _ Hd). simpl. now apply IH. }
  destruct ds as [|d ds]; [congruence|].
  simpl in Hall. apply andb_prop in Hall. destruct Hall as [Hd Hall].
  unfold recordTypes in *. simpl. rewrite (Hstep d sc Hd). now apply Hkeep.
Qed.

(** X10: with [separateRequires] and the mode ALWAYS for both buckets, a
    statement made of requires only is accepted as the require group of
    its scope whatever else the scope has recorded, and sets the
    [required] flag alone; once the flag is set, such a statement gets
    the generic combine diagnostic and nothing else. *)
Theorem require_group_once options SLP node st sc :
  separateRequires options = true ->
  mode_is options opt_uninitialized (kind (decl node)) MODE_ALWAYS = true ->
  mode_is options opt_initialized (kind (decl node)) MODE_ALWAYS = true ->
  forallb isRequire (declarations (decl node)) = true ->
  declarations (decl node) <> [] ->
  getCurrentScope (kind (decl node)) st = Some sc ->
  exists reports st',
    checkVariableDeclaration options SLP node st = Some (reports, st')
    /\ messageIds reports = (if required sc then [combine] else [])
    /\ getCurrentScope (kind (decl node)) st'
       = Some (mkScope (initialized sc) (uninitialized sc) true).
Proof.
  intros Hsep Hu Hi Hall Hds Hsc.
  pose proof (mode_is_other _ _ _ _ MODE_CONSECUTIVE Hi ltac:(discriminate)) as HiC.
  pose proof (mode_is_other _ _ _ _ MODE_CONSECUTIVE Hu ltac:(discriminate)) as HuC.
  pose proof (mode_is_other _ _ _ _ MODE_NEVER Hi ltac:(discriminate)) as HiN.
  pose proof (mode_is_other _ _ _ _ MODE_NEVER Hu ltac:(discriminate)) as HuN.
  pose proof (forallb_existsb _ _ Hds Hall) as Hsome.
  assert (Hmixed : checkMixedRequires options node = []).
  { apply checkMixedRequires_silent. unfold mixedRequires. rewrite Hall.
    now rewrite !andb_false_r. }
  assert (Hcount : count_uninitialized
                     (countDeclarations (declarations (decl node))) = 0).
  { apply countDeclarations_all_initialized. intros d Hd.
    apply isRequire_init. rewrite forallb_forall in Hall. now apply Hall. }
  destruct (joinDeclarations_total node st Hds) as [f Hf].
  assert (Honly : hasOnlyOneStatement options (kind (decl node))
                    (declarations (decl node)) st
                  = Some (negb (required sc),
                          if required sc then st
                          else setCurrentScope (kind (decl node))
                                 (recordTypes options (kind (decl node))
                                    (declarations (decl node)) sc) st)).
  { unfold hasOnlyOneStatement, bind, get_state, deref, ret, put_state.
    rewrite Hsc. simpl. rewrite Hsome, Hcount. simpl.
    rewrite !andb_false_r, andb_true_r. simpl. now destruct (required sc). }
  destruct (required sc) eqn:Hr; simpl in Honly.
  - exists [report node combine (Some f)], st. split; [|split; [reflexivity|]].
    + rewrite (checkVariableDeclaration_run options SLP node st []
                 [report node combine (Some f)] false st).
      * rewrite Hmixed, checkNever_silent by assumption. reflexivity.
      * now apply mode_is_configured in Hi.
      * now apply checkConsecutive_silent.
      * unfold checkAlways, bind, ret. rewrite Honly. simpl. rewrite Hi, Hu.
        simpl. now rewrite Hf.
    + rewrite Hsc. destruct sc as [i u r]. simpl in *. now subst r.
  - eexists [], _. split; [|split; [reflexivity|]].
    + rewrite (checkVariableDeclaration_run options SLP node st [] [] false
                 (setCurrentScope (kind (decl node))
                    (recordTypes options (kind (decl node))
                       (declarations (decl node)) sc) st)).
      * rewrite Hmixed, checkNever_silent by assumption. reflexivity.
      * now apply mode_is_configured in Hi.
      * now apply checkConsecutive_silent.
      * unfold checkAlways, bind, ret. now rewrite Honly.
    + rewrite (recordTypes_all_requires _ _ _ sc Hsep Hi Hall Hds).
      eapply getCurrentScope_setCurrentScope, Hsc.
Qed.

(** ** How many diagnostics *)

Lemma checkConsecutive_length options node st reports st' :
  checkConsecutive options node st = Some (reports, st') -> length reports <= 1.
Proof.
  unfold checkConsecutive, bind, deref, ret, throw.
  repeat (case_match; simpl in *; try discriminate);
    intros; simplify_eq; simpl; lia.
Qed.

Lemma checkAlways_length options node st reports returned st' :
  checkAlways options node st = Some ((reports, returned), st') ->
  length reports <= 1.
Proof.
  unfold checkAlways, bind, ret.
  destruct (hasOnlyOneStatement _ _ _ st) as [[only s]|]; [|discriminate].
  destruct only; simpl; [intros [= <- _ _]; simpl; lia|].
  destruct (mode_is options opt_initialized (kind (decl node)) MODE_ALWAYS),
    (mode_is options opt_uninitialized (kind (decl node)) MODE_ALWAYS); simpl;
    repeat (case_match; simpl in *; try discriminate);
    intros; simplify_eq; simpl; lia.
Qed.

Lemma nonempty_gate {P : MessageId -> Prop} (reports : list Report) :
  Forall (fun r => P (messageId r)) reports -> reports <> [] -> exists m, P m.
Proof. destruct reports as [|r ?]; [congruence|]. intros H _.
  apply Forall_cons in H. destruct H. eauto. Qed.

(** X11: one evaluation of a statement makes at most three diagnostics,
    and at most two without [separateRequires]. *)
Theorem checkVariableDeclaration_at_most_three options SLP node st reports st' :
  checkVariableDeclaration options SLP node st = Some (reports, st') ->
  length reports <= 3
  /\ (separateRequires options = false -> length reports <= 2).
Proof.
  intros Hrun. apply checkVariableDeclaration_inv in Hrun.
  destruct Hrun as [(_ & -> & _)|(consecutive & always & returned & _ & Hc & Ha & ->)];
    [simpl; split; intros; lia|].
  pose proof (checkConsecutive_length _ _ _ _ _ Hc) as Lc.
  pose proof (checkAlways_length _ _ _ _ _ _ Ha) as La.
  pose proof (checkNever_length options SLP node) as Ln.
  apply checkConsecutive_inv in Hc. destruct Hc as [_ Gc].
  apply checkAlways_inv in Ha. destruct Ha as (only & _ & Ga & _).
  pose proof (checkNever_gate options SLP node) as Gn.
  assert (Lm : length (checkMixedRequires options node) <= 1)
    by (unfold checkMixedRequires; case_match; simpl; lia).
  assert (Hsep : separateRequires options = false ->
                 length (checkMixedRequires options node) = 0).
  { intros E. unfold checkMixedRequires. rewrite E, andb_false_r. reflexivity. }
  assert (Hthree : length consecutive + length always
                   + length (if returned then [] else checkNever options SLP node)
                   <= 2).
  { destruct returned; [simpl; lia|].
    destruct consecutive as [|c0 consecutive']; [simpl; lia|].
    destruct always as [|a0 always']; [simpl in *; lia|].
    destruct (checkNever options SLP node) as [|n0 never'] eqn:En; [simpl in *; lia|].
    exfalso.
    apply Forall_cons in Gc, Ga, Gn.
    destruct Gc as [Gc _], Ga as [Ga _], Gn as [Gn _].
    unfold consecutive_gate, always_gate, never_gate, gate in *.
    decompose [and or] Gc; decompose [and or] Ga; decompose [and or] Gn;
      mode_conflict. }
  rewrite !length_app. split; [lia|]. intros E. specialize (Hsep E). lia.
Qed.

(** X12: a string configuration, or none, never leads to a
    [splitRequires] diagnostic. *)
Theorem string_config_no_splitRequires cfg SLP node st reports st' :
  (cfg = ConfigAbsent \/ exists mode, cfg = ConfigString mode) ->
  checkVariableDeclaration (deriveOptions cfg) SLP node st = Some (reports, st') ->
  splitRequires ∉ messageIds reports.
Proof.
  intros Hcfg Hrun.
  assert (Hsep : separateRequires (deriveOptions cfg) = false)
    by (destruct Hcfg as [->|[mode ->]]; reflexivity).
  pose proof (checkVariableDeclaration_gated _ _ _ _ _ _ Hrun) as G.
  apply checkVariableDeclaration_inv in Hrun.
  destruct Hrun as [(_ & -> & _)|(consecutive & always & returned & _ & Hc & Ha & ->)];
    [apply not_elem_of_nil|].
  apply checkConsecutive_inv in Hc. destruct Hc as [_ Gc].
  apply checkAlways_inv in Ha. destruct Ha as (only & _ & Ga & _).
  pose proof (checkNever_gate (deriveOptions cfg) SLP node) as Gn.
  unfold checkMixedRequires. rewrite Hsep, andb_false_r. simpl.
  unfold messageIds. rewrite !map_app, !elem_of_app.
  intros [H|[H|H]]; apply list_elem_of_fmap in H; destruct H as (r & Hr & Hin).
  - rewrite Forall_forall in Gc. specialize (Gc r Hin). rewrite <- Hr in Gc.
    unfold consecutive_gate, gate in Gc. decompose [and or] Gc; discriminate.
  - rewrite Forall_forall in Ga. specialize (Ga r Hin). rewrite <- Hr in Ga.
    unfold always_gate, gate in Ga. decompose [and or] Ga; discriminate.
  - destruct returned; [now apply not_elem_of_nil in Hin|].
    rewrite Forall_forall in Gn. specialize (Gn r Hin). rewrite <- Hr in Gn.
    unfold never_gate, gate in Gn. decompose [and or] Gn; discriminate.
Qed.

(** ** The edits of the fixers *)

Lemma getTokenBefore_found sc start t :
  getTokenBefore sc start = Some t ->
  t ∈ tokensAndComments sc
  /\ snd (t_range t) <= start
  /\ isCommentToken t = false.
Proof.
  unfold getTokenBefore. intros H. apply last_Some_elem_of in H.
  apply list_elem_of_filter in H. destruct H as [[Hle Hc] Hin].
  apply Nat.leb_le in Hle. auto.
Qed.

(** X13: the join fixer returns no edit or two.  The two are a comma put
    on or right after the token before the keyword, then the removal of
    the keyword before the first declarator; the first ends where the
    second starts or earlier.  It returns none exactly when the
    previous sibling is missing or is no declaration of the kind the
    keyword spells. *)
Theorem runJoinFix_edits sourceCode declaration previousNode st edits st' :
  runJoinFix sourceCode declaration previousNode st = Some (edits, st') ->
  exists type,
    getTokenBefore sourceCode (fst (d_range declaration)) = Some type
    /\ let same_kind :=
         match previousNode with
         | Some (VariableDeclarationStatement previous) =>
             String.eqb (kind_text (kind previous)) (getText sourceCode type)
         | _ => false
         end in
       if same_kind
       then exists prevSemi comma,
              getTokenBefore sourceCode (fst (t_range type)) = Some prevSemi
              /\ edits = [comma; mkEdit (t_range type) ""]
              /\ e_text comma = ","
              /\ e_range comma
                 = (if String.eqb (t_value prevSemi) ";"
                    then t_range prevSemi
                    else (snd (t_range prevSemi), snd (t_range prevSemi)))
              /\ snd (e_range comma) <= fst (t_range type)
       else edits = [].
Proof.
  unfold runJoinFix, bind, deref, ret, throw.
  destruct (getTokenBefore sourceCode (fst (d_range declaration))) as [type|] eqn:Ht;
    [|discriminate].
  intros H. exists type. split; [reflexivity|]. simpl.
  destruct previousNode as [[previous|]|]; try (now inversion H).
  destruct (String.eqb _ _); [|now inversion H].
  destruct (getTokenBefore sourceCode (fst (t_range type))) as [prevSemi|] eqn:Hp;
    [|discriminate].
  apply getTokenBefore_found in Hp. destruct Hp as (_ & Hle & _).
  inversion H; subst. exists prevSemi. eexists. split; [reflexivity|].
  split; [reflexivity|].
  destruct (String.eqb (t_value prevSemi) ";"); simpl; auto.
Qed.





(** ** Function scope and block scope *)



(** ** When the check throws *)

(** X16: for a statement of a configured kind with at least one
    declarator, the check throws exactly when the stack its kind reads
    is empty; for a kind without options it returns at once, with no
    diagnostic and the state as it was. *)
Theorem checkVariableDeclaration_throws_iff options SLP node st :
  declarations (decl node) <> [] ->
  (is_Some (options_get options (kind (decl node))) ->
   (checkVariableDeclaration options SLP node st = None
    <-> getCurrentScope (kind (decl node)) st = None))
  /\ (options_get options (kind (decl node)) = None ->
      checkVariableDeclaration options SLP node st = Some ([], st)).
Proof.
  intros Hds. split.
  - intros [ko Hko].
    destruct (checkConsecutive_total options node st Hds) as [consecutive Hc].
    unfold checkVariableDeclaration, bind. rewrite Hko, Hc. simpl.
    destruct (getCurrentScope (kind (decl node)) st) as [sc|] eqn:Hsc.
    + destruct (checkAlways_total options node st sc Hds Hsc) as (always & st' & Ha).
      rewrite Ha. simpl. split; [|discriminate].
      unfold ret. now destruct (snd always).
    + split; [reflexivity|]. intros _.
      unfold checkAlways, hasOnlyOneStatement, bind, get_state, deref, throw.
      now rewrite Hsc.
  - intros Hnone. unfold checkVariableDeclaration. now rewrite Hnone.
Qed.


(** ** Instances on concrete programs *)

Example after_requireOnly_reached :
  traverse separate_always_initialized_never_uninitialized statementListParents
    [Enter "Program"; EnterVariableDeclaration requireOnly_node] initial
  = Some ([], after_requireOnly).
Proof. vm_compute. reflexivity. Qed.

Lemma three_reports_run :
  checkVariableDeclaration separate_always_initialized_never_uninitialized
    statementListParents requireNumberBare_node after_requireOnly
  = Some (three_reports, after_requireOnly).
Proof. vm_compute. reflexivity. Qed.

Lemma twoBare_always_run :
  checkVariableDeclaration always statementListParents twoBare_node in_program
  = Some ([], after_twoBare).
Proof. vm_compute. reflexivity. Qed.

Lemma checkVariableDeclaration_keeps_depth_twoBare :
  checkVariableDeclaration always statementListParents twoBare_node in_program
  = Some ([], after_twoBare)
  /\ length (functionStack after_twoBare) = length (functionStack in_program)
  /\ length (blockStack after_twoBare) = length (blockStack in_program)
  /\ removelast (functionStack after_twoBare) = removelast (functionStack in_program)
  /\ removelast (blockStack after_twoBare) = removelast (blockStack in_program).
Proof.
  split; [exact twoBare_always_run|].
  exact (checkVariableDeclaration_keeps_depth always statementListParents
           twoBare_node in_program [] after_twoBare twoBare_always_run).
Defined.

Lemma checkVariableDeclaration_kinds_apart_twoBare :
  checkVariableDeclaration always statementListParents twoBare_node in_program
  = Some ([], after_twoBare)
  /\ (kind (decl twoBare_node) = Kvar ->
      blockStack after_twoBare = blockStack in_program)
  /\ (kind (decl twoBare_node) = Klet ->
      functionStack after_twoBare = functionStack in_program
      /\ getCurrentScope Kconst after_twoBare = getCurrentScope Kconst in_program)
  /\ (kind (decl twoBare_node) = Kconst ->
      functionStack after_twoBare = functionStack in_program
      /\ getCurrentScope Klet after_twoBare = getCurrentScope Klet in_program).
Proof.
  split; [exact twoBare_always_run|].
  exact (checkVariableDeclaration_kinds_apart always statementListParents
           twoBare_node in_program [] after_twoBare twoBare_always_run).
Defined.

Lemma checkVariableDeclaration_flags_grow_twoBare :
  checkVariableDeclaration always statementListParents twoBare_node in_program
  = Some ([], after_twoBare)
  /\ getCurrentScope (kind (decl twoBare_node)) in_program = Some fresh_scope
  /\ exists sc',
       getCurrentScope (kind (decl twoBare_node)) after_twoBare = Some sc'
       /\ flags_le fresh_scope sc'.
Proof.
  split; [exact twoBare_always_run|]. split; [reflexivity|].
  exact (checkVariableDeclaration_flags_grow always statementListParents
           twoBare_node in_program [] after_twoBare fresh_scope
           twoBare_always_run eq_refl).
Defined.

Lemma twoBare_never_run :
  checkVariableDeclaration never statementListParents twoBare_node in_program
  = Some ([report twoBare_node split (Some (SplitFix twoBare_node))], in_program).
Proof. vm_compute. reflexivity. Qed.

Lemma checkVariableDeclaration_writes_only_under_always_twoBare :
  mode_is never opt_uninitialized (kind (decl twoBare_node)) MODE_ALWAYS = false
  /\ mode_is never opt_initialized (kind (decl twoBare_node)) MODE_ALWAYS = false
  /\ checkVariableDeclaration never statementListParents twoBare_node in_program
     = Some ([report twoBare_node split (Some (SplitFix twoBare_node))], in_program)
  /\ in_program = in_program.
Proof.
  split; [reflexivity|]. split; [reflexivity|]. split; [exact twoBare_never_run|].
  exact (checkVariableDeclaration_writes_only_under_always never
           statementListParents twoBare_node in_program _ in_program
           eq_refl eq_refl twoBare_never_run).
Defined.

Lemma never_mode_reports_twoBare :
  mode_is never opt_initialized (kind (decl twoBare_node)) MODE_NEVER = true
  /\ mode_is never opt_uninitialized (kind (decl twoBare_node)) MODE_NEVER = true
  /\ getCurrentScope (kind (decl twoBare_node)) in_program = Some fresh_scope
  /\ exists reports,
       checkVariableDeclaration never statementListParents twoBare_node in_program
       = Some (reports, in_program)
       /\ messageIds reports
          = if negb (is_for_init twoBare_node)
               && Nat.ltb 1 (length (declarations (decl twoBare_node)))
            then [split] else [].
Proof.
  split; [reflexivity|]. split; [reflexivity|]. split; [reflexivity|].
  exact (never_mode_reports never statementListParents twoBare_node in_program
           fresh_scope eq_refl eq_refl eq_refl).
Defined.

Lemma consecutive_mode_reports_bareB :
  mode_is consecutive opt_initialized (kind (decl bareB_node)) MODE_CONSECUTIVE = true
  /\ mode_is consecutive opt_uninitialized (kind (decl bareB_node)) MODE_CONSECUTIVE
     = true
  /\ declarations (decl bareB_node) <> []
  /\ getCurrentScope (kind (decl bareB_node)) in_program = Some fresh_scope
  /\ exists reports,
       checkVariableDeclaration consecutive statementListParents bareB_node in_program
       = Some (reports, in_program)
       /\ messageIds reports = if joinable bareB_node then [combine] else [].
Proof.
  split; [reflexivity|]. split; [reflexivity|]. split; [discriminate|].
  split; [reflexivity|].
  apply (consecutive_mode_reports consecutive statementListParents bareB_node
           in_program fresh_scope); first [reflexivity|discriminate].
Defined.

Lemma checkConsecutive_first_statement_bareA :
  match p_body (parent bareA_node) with
  | Some (first :: _) => statement_id first = nid (decl bareA_node)
  | Some [] => True
  | None => True
  end
  /\ checkConsecutive consecutive bareA_node in_program = Some ([], in_program).
Proof.
  split; [reflexivity|].
  apply (checkConsecutive_first_statement consecutive bareA_node in_program).
  reflexivity.
Defined.

Lemma always_mode_all_but_first_bareAB :
  mode_is always opt_uninitialized Kvar MODE_ALWAYS = true
  /\ mode_is always opt_initialized Kvar MODE_ALWAYS = true
  /\ Forall (plain_statement Kvar) [bareA_node; bareB_node]
  /\ getCurrentScope Kvar in_program = Some fresh_scope
  /\ exists reports st',
       traverse always statementListParents
         (map EnterVariableDeclaration [bareA_node; bareB_node]) in_program
       = Some (reports, st')
       /\ messageIds reports
          = replicate (if uninitialized fresh_scope || initialized fresh_scope
                       then length [bareA_node; bareB_node]
                       else length [bareA_node; bareB_node] - 1) combine.
Proof.
  assert (Hall : Forall (plain_statement Kvar) [bareA_node; bareB_node]).
  { repeat constructor; discriminate. }
  split; [reflexivity|]. split; [reflexivity|]. split; [exact Hall|].
  split; [reflexivity|].
  exact (always_mode_all_but_first always statementListParents Kvar
           [bareA_node; bareB_node] in_program fresh_scope
           eq_refl eq_refl Hall eq_refl).
Defined.

Lemma require_group_once_after_initialized :
  separateRequires (separateRequires_with MODE_ALWAYS) = true
  /\ mode_is (separateRequires_with MODE_ALWAYS) opt_uninitialized
       (kind (decl requireOnly_node)) MODE_ALWAYS = true
  /\ mode_is (separateRequires_with MODE_ALWAYS) opt_initialized
       (kind (decl requireOnly_node)) MODE_ALWAYS = true
  /\ forallb isRequire (declarations (decl requireOnly_node)) = true
  /\ declarations (decl requireOnly_node) <> []
  /\ getCurrentScope (kind (decl requireOnly_node)) after_firstInitialized
     = Some (mkScope true false false)
  /\ exists reports st',
       checkVariableDeclaration (separateRequires_with MODE_ALWAYS)
         statementListParents requireOnly_node after_firstInitialized
       = Some (reports, st')
       /\ messageIds reports
          = (if required (mkScope true false false) then [combine] else [])
       /\ getCurrentScope (kind (decl requireOnly_node)) st'
          = Some (mkScope (initialized (mkScope true false false))
                    (uninitialized (mkScope true false false)) true).
Proof.
  split; [reflexivity|]. split; [reflexivity|]. split; [reflexivity|].
  split; [reflexivity|]. split; [discriminate|]. split; [reflexivity|].
  apply (require_group_once (separateRequires_with MODE_ALWAYS)
           statementListParents requireOnly_node after_firstInitialized
           (mkScope true false false)); first [reflexivity|discriminate].
Defined.

Lemma checkVariableDeclaration_at_most_three_reached :
  checkVariableDeclaration separate_always_initialized_never_uninitialized
    statementListParents requireNumberBare_node after_requireOnly
  = Some (three_reports, after_requireOnly)
  /\ length three_reports <= 3
  /\ (separateRequires separate_always_initialized_never_uninitialized = false ->
      length three_reports <= 2).
Proof.
  split; [exact three_reports_run|].
  exact (checkVariableDeclaration_at_most_three
           separate_always_initialized_never_uninitialized statementListParents
           requireNumberBare_node after_requireOnly three_reports after_requireOnly
           three_reports_run).
Defined.

Lemma requireAndNumber_always_run :
  checkVariableDeclaration (deriveOptions (ConfigString MODE_ALWAYS))
    statementListParents requireAndNumber_node in_program
  = Some ([], mkAnalyzer [mkScope true false false]
                [mkBlock fresh_scope fresh_scope]).
Proof. vm_compute. reflexivity. Qed.

Lemma string_config_no_splitRequires_always :
  (ConfigString MODE_ALWAYS = ConfigAbsent
   \/ exists mode, ConfigString MODE_ALWAYS = ConfigString mode)
  /\ checkVariableDeclaration (deriveOptions (ConfigString MODE_ALWAYS))
       statementListParents requireAndNumber_node in_program
     = Some ([], mkAnalyzer [mkScope true false false]
                   [mkBlock fresh_scope fresh_scope])
  /\ (splitRequires ∉ messageIds []).
Proof.
  assert (Hcfg : ConfigString MODE_ALWAYS = ConfigAbsent
                 \/ exists mode, ConfigString MODE_ALWAYS = ConfigString mode)
    by (right; eexists; reflexivity).
  split; [exact Hcfg|]. split; [exact requireAndNumber_always_run|].
  exact (string_config_no_splitRequires (ConfigString MODE_ALWAYS)
           statementListParents requireAndNumber_node in_program _ _
           Hcfg requireAndNumber_always_run).
Defined.

Lemma bareB_join_run :
  runJoinFix bareAB_source (mkDeclarator (11, 12) None)
    (Some (VariableDeclarationStatement bareA)) initial
  = Some (bareB_join_edits, initial).
Proof. vm_compute. reflexivity. Qed.

Lemma runJoinFix_edits_bareB :
  runJoinFix bareAB_source (mkDeclarator (11, 12) None)
    (Some (VariableDeclarationStatement bareA)) initial
  = Some (bareB_join_edits, initial)
  /\ exists type,
       getTokenBefore bareAB_source (fst (d_range (mkDeclarator (11, 12) None)))
       = Some type
       /\ let same_kind :=
            match Some (VariableDeclarationStatement bareA) with
            | Some (VariableDeclarationStatement previous) =>
                String.eqb (kind_text (kind previous)) (getText bareAB_source type)
            | _ => false
            end in
          if same_kind
          then exists prevSemi comma,
                 getTokenBefore bareAB_source (fst (t_range type)) = Some prevSemi
                 /\ bareB_join_edits = [comma; mkEdit (t_range type) ""]
                 /\ e_text comma = ","
                 /\ e_range comma
                    = (if String.eqb (t_value prevSemi) ";"
                       then t_range prevSemi
                       else (snd (t_range prevSemi), snd (t_range prevSemi)))
                 /\ snd (e_range comma) <= fst (t_range type)
          else bareB_join_edits = [].
Proof.
  split; [exact bareB_join_run|].
  exact (runJoinFix_edits bareAB_source (mkDeclarator (11, 12) None)
           (Some (VariableDeclarationStatement bareA)) initial
           bareB_join_edits initial bareB_join_run).
Defined.


(** The comment between the declarators stays where it was. *)
Example commented_split_output :
  applyEdits commented_split_edits (text commented_source) = "var a; /*c*/ var b;".
Proof. vm_compute. reflexivity. Qed.


Lemma checkVariableDeclaration_throws_iff_twoBare :
  declarations (decl twoBare_node) <> []
  /\ (is_Some (options_get always (kind (decl twoBare_node))) ->
      (checkVariableDeclaration always statementListParents twoBare_node initial
       = None
       <-> getCurrentScope (kind (decl twoBare_node)) initial = None))
  /\ (options_get always (kind (decl twoBare_node)) = None ->
      checkVariableDeclaration always statementListParents twoBare_node initial
      = Some ([], initial)).
Proof.
  split; [discriminate|].
  apply (checkVariableDeclaration_throws_iff always statementListParents
           twoBare_node initial). discriminate.
Defined.

(** The check throws before the [Program] hook has run, and skips a
    [using] statement. *)
Example checkVariableDeclaration_throws_before_program :
  checkVariableDeclaration always statementListParents twoBare_node initial = None
  /\ checkVariableDeclaration always statementListParents usingStatement_node initial
     = Some ([], initial).
Proof. split; reflexivity. Qed.



(** * Properties of the [no-undefined] rule *)

Import NoUndefined.

Lemma total_size_app a b : total_size (a ++ b) = total_size a + total_size b.
Proof. unfold total_size. induction a; simpl; lia. Qed.

Lemma stack_order_app a b : stack_order (a ++ b) = stack_order b ++ stack_order a.
Proof.
  unfold stack_order. induction a as [|x a IH]; simpl.
  - now rewrite app_nil_r.
  - now rewrite IH, app_assoc.
Qed.

Lemma countScopes_unfold s : countScopes s = S (total_size (childScopes s)).
Proof. now destruct s. Qed.

Lemma checked_order_unfold s : checked_order s = s :: stack_order (childScopes s).
Proof. now destruct s. Qed.

Lemma loop_enough fuel : forall stack reported,
  total_size stack <= fuel ->
  loop fuel stack reported
  = Some (reported ++ flat_map checkScope (stack_order stack)).
Proof.
  induction fuel as [|fuel IH]; intros stack reported Hfuel.
  - destruct stack as [|s stack] using rev_ind.
    + simpl. now rewrite app_nil_r.
    + rewrite total_size_app in Hfuel. simpl in Hfuel.
      rewrite countScopes_unfold in Hfuel. lia.
  - destruct stack as [|s stack _] using rev_ind.
    + simpl. now rewrite app_nil_r.
    + simpl. rewrite last_snoc, removelast_last.
      rewrite IH.
      * rewrite !stack_order_app. simpl. rewrite checked_order_unfold. simpl.
        rewrite !flat_map_app, <- !app_assoc. reflexivity.
      * rewrite total_size_app in *. simpl in Hfuel. rewrite countScopes_unfold in Hfuel. lia.
Qed.

Lemma Scope_tree_ind (P : Scope -> Prop) :
  (forall set children, Forall P children -> P (mkScopeNode set children)) ->
  forall s, P s.
Proof.
  intros H. fix IH 1. intros [set children]. apply H.
  induction children as [|c children IHc]; constructor; [apply IH|exact IHc].
Qed.

Lemma all_scopes_unfold s : all_scopes s = s :: stack_scopes (childScopes s).
Proof. now destruct s. Qed.

Lemma checked_order_permutation s : checked_order s ≡ₚ all_scopes s.
Proof.
  induction s as [set children IH] using Scope_tree_ind.
  rewrite checked_order_unfold, all_scopes_unfold. simpl. constructor.
  induction IH as [|c children Hc _ IHchildren]; [reflexivity|].
  simpl. rewrite IHchildren, Hc. apply Permutation_app_comm.
Qed.

Lemma loop_from_global globalScope fuel :
  countScopes globalScope <= fuel ->
  loop fuel [globalScope] []
  = Some (flat_map checkScope (checked_order globalScope)).
Proof.
  intros Hfuel. rewrite loop_enough by (simpl; lia).
  unfold stack_order. simpl. reflexivity.
Qed.

(** X17: the ["Program:exit"] hook ends and checks the scopes of the
    tree in a fixed order, a scope and then its children from the last
    to the first with all that they hold; as many turns as the tree has
    scopes are enough, and more fuel changes nothing. *)
Theorem programExit_checks_in_order globalScope fuel :
  countScopes globalScope <= fuel ->
  loop fuel [globalScope] []
  = Some (flat_map checkScope (checked_order globalScope))
  /\ programExit globalScope = loop fuel [globalScope] [].
Proof.
  intros Hfuel. split; [now apply loop_from_global|].
  unfold programExit. now rewrite !loop_from_global.
Qed.

Lemma checkScope_spec scope n : n ∈ checkScope scope <-> uses_undefined scope n.
Proof.
  unfold checkScope, uses_undefined.
  destruct (scope_set scope !! "undefined") as [v|].
  - rewrite elem_of_app, !list_elem_of_fmap. split.
    + intros [(r & -> & Hr)|(d & -> & Hd)]; exists v; split; auto.
      * left. exists r. apply list_elem_of_In, filter_In in Hr.
        destruct Hr as [Hr Hn]. apply list_elem_of_In in Hr. auto.
      * right. eauto.
    + intros (v' & [= <-] & [(r & Hr & Hn & <-)|(d & Hd & <-)]).
      * left. exists r. split; [reflexivity|].
        apply list_elem_of_In, filter_In. split; [now apply list_elem_of_In|auto].
      * right. eauto.
  - split; [intros H; now apply not_elem_of_nil in H|]. intros (v & H & _). discriminate.
Qed.

(** X18: the hook returns the reports of every scope of the tree, each
    scope checked once; a node is reported exactly when some scope binds
    [undefined] and the node is the identifier of a reference to that
    variable that does not initialize it, or the name of one of its
    definitions. *)
Theorem programExit_reports_exactly globalScope :
  exists reports,
    programExit globalScope = Some reports
    /\ reports ≡ₚ flat_map checkScope (all_scopes globalScope)
    /\ (forall n, n ∈ reports <->
          exists scope, scope ∈ all_scopes globalScope /\ uses_undefined scope n).
Proof.
  exists (flat_map checkScope (checked_order globalScope)).
  split; [now apply loop_from_global|].
  assert (P : flat_map checkScope (checked_order globalScope)
              ≡ₚ flat_map checkScope (all_scopes globalScope)).
  { apply Permutation_flat_map, checked_order_permutation. }
  split; [exact P|]. intros n. rewrite P.
  rewrite list_elem_of_In, in_flat_map. split.
  - intros (scope & Hin & Hn). exists scope.
    split; [now apply list_elem_of_In|]. now apply checkScope_spec, list_elem_of_In.
  - intros (scope & Hin & Hn). exists scope.
    split; [now apply list_elem_of_In|]. now apply list_elem_of_In, checkScope_spec.
Qed.

Example example_scopes_reports : programExit example_scopes = Some [11; 31].
Proof. vm_compute. reflexivity. Qed.

Lemma programExit_checks_in_order_example :
  countScopes example_scopes <= 5
  /\ loop 5 [example_scopes] []
     = Some (flat_map checkScope (checked_order example_scopes))
  /\ programExit example_scopes = loop 5 [example_scopes] [].
Proof.
  assert (H : countScopes example_scopes <= 5) by (vm_compute; lia).
  split; [exact H|]. exact (programExit_checks_in_order example_scopes 5 H).
Defined.

